(** * check_files.py: permission snapshot of an installation tree

    A shallow embedding of [src/check_files.py]: the symbolic permission
    renderer [get_filemode], the per-path extractor [get_data_information],
    the tree walker [get_current_items] with its ignore test, and the two
    path helpers [remove_initial_bar_chars] / [remove_ending_bar_chars].

    Python values are modelled as follows.
    - [str] is [string]; indexing an empty string raises [IndexError].
    - [int] is [Z]; [&] is [Z.land].
    - [None] versus a value is [option].
    - a [dict] keyed by strings is a [gmap string _]; [collections.Counter]
      is a [gmap string Z].
    - an exception that leaves a function is the [Raise] case of [result].
    - the operating system ([os.stat], [os.walk], [pwd], [grp]) is an
      explicit, immutable environment. *)

From Stdlib Require Import ZArith List String Ascii Lia Bool.
From stdpp Require Import gmap strings list fin_maps sorting.

Open Scope Z_scope.

(** ** Exceptions *)

Inductive exn := IndexError | KeyError.

Inductive result (A : Type) :=
| Ok (a : A)
| Raise (e : exn).
Arguments Ok {A} a.
Arguments Raise {A} e.

Definition bind {A B} (r : result A) (k : A → result B) : result B :=
  match r with
  | Ok a => k a
  | Raise e => Raise e
  end.

Notation "'let*' x ':=' r 'in' k" := (bind r (fun x => k))
  (at level 10, x pattern, r at level 200, k at level 200).

(** A [for] loop whose body may raise. *)
Fixpoint for_each {A S} (body : S → A → result S) (s : S) (xs : list A) : result S :=
  match xs with
  | [] => Ok s
  | x :: rest => let* s' := body s x in for_each body s' rest
  end.

(** ** Python string primitives used by the script *)

Definition slash : ascii := "/"%char.

(** [s.split('/')] for the one-character separator. *)
Fixpoint split (s : string) : list string :=
  match s with
  | EmptyString => [EmptyString]
  | String c r =>
      if Ascii.eqb c slash then EmptyString :: split r
      else match split r with
           | h :: t => String c h :: t
           | [] => [String c EmptyString]
           end
  end.

(** [s.replace(c, '')]. *)
Fixpoint remove_char (c : ascii) (s : string) : string :=
  match s with
  | EmptyString => EmptyString
  | String a r => if Ascii.eqb a c then remove_char c r else String a (remove_char c r)
  end.

(** [s[-n:]] for [0 < n]. *)
Definition last_chars (n : nat) (s : string) : string :=
  substring (String.length s - n) n s.

(** [s.endswith(suffix)]. *)
Definition endswith (s suffix : string) : bool :=
  String.eqb (last_chars (String.length suffix) s) suffix
  && (String.length suffix <=? String.length s)%nat.

(** Last character of a string, [None] on the empty string. *)
Fixpoint last_char (s : string) : option ascii :=
  match s with
  | EmptyString => None
  | String c EmptyString => Some c
  | String _ r => last_char r
  end.

(** [s[:-1]]. *)
Fixpoint drop_last (s : string) : string :=
  match s with
  | EmptyString => EmptyString
  | String _ EmptyString => EmptyString
  | String c r => String c (drop_last r)
  end.

(** [oct(n)] for [0 <= n]: the prefix [0o] and the octal digits. *)
Definition octal_digit (d : Z) : ascii := ascii_of_nat (48 + Z.to_nat d).

Fixpoint octal_digits (fuel : nat) (n : Z) : string :=
  match fuel with
  | O => EmptyString
  | S f =>
      if n <? 8 then String (octal_digit n) EmptyString
      else octal_digits f (n / 8) +:+ String (octal_digit (n mod 8)) EmptyString
  end.

Definition oct (n : Z) : string :=
  "0o" +:+ octal_digits (S (Z.to_nat (Z.log2 n))) n.

(** The number that a string of octal digits denotes. *)
Definition octal_value (s : string) : Z :=
  fold_left (λ acc c, 8 * acc + (Z.of_nat (nat_of_ascii c) - 48))
            (list_ascii_of_string s) 0.

(** Every character of [s] satisfies [P]. *)
Fixpoint string_forall (P : ascii → bool) (s : string) : bool :=
  match s with
  | EmptyString => true
  | String c r => P c && string_forall P r
  end.

Definition is_octal_digit (c : ascii) : bool :=
  (48 <=? nat_of_ascii c)%nat && (nat_of_ascii c <=? 55)%nat.

(** ** The [stat] module constants (POSIX values) *)

Module stat.
Definition S_IFLNK : Z := 40960.  (* 0o120000 *)
Definition S_IFREG : Z := 32768.  (* 0o100000 *)
Definition S_IFBLK : Z := 24576.  (* 0o060000 *)
Definition S_IFDIR : Z := 16384.  (* 0o040000 *)
Definition S_IFCHR : Z := 8192.   (* 0o020000 *)
Definition S_IFIFO : Z := 4096.   (* 0o010000 *)
Definition S_IFSOCK : Z := 49152. (* 0o140000 *)
Definition S_ISUID : Z := 2048.   (* 0o4000 *)
Definition S_ISGID : Z := 1024.   (* 0o2000 *)
Definition S_ISVTX : Z := 512.    (* 0o1000 *)
Definition S_IRUSR : Z := 256.
Definition S_IWUSR : Z := 128.
Definition S_IXUSR : Z := 64.
Definition S_IRGRP : Z := 32.
Definition S_IWGRP : Z := 16.
Definition S_IXGRP : Z := 8.
Definition S_IROTH : Z := 4.
Definition S_IWOTH : Z := 2.
Definition S_IXOTH : Z := 1.
(** [stat.S_IMODE(mode)] and [stat.S_IFMT(mode)]. *)
Definition S_IMODE (mode : Z) : Z := Z.land mode 4095.   (* 0o7777 *)
Definition S_IFMT (mode : Z) : Z := Z.land mode 61440.   (* 0o170000 *)
End stat.
Import stat.

(** ** [_filemode_list] and [get_filemode] *)

(** Each dict of the script keeps its insertion order, which is the order
    in which [items()] is tried. *)
Definition _filemode_list : list (list (Z * string)) :=
  [ [ (S_IFLNK, "l"); (S_IFREG, "-"); (S_IFBLK, "b");
      (S_IFDIR, "d"); (S_IFCHR, "c"); (S_IFIFO, "p") ];
    [ (S_IRUSR, "r") ];
    [ (S_IWUSR, "w") ];
    [ (Z.lor S_IXUSR S_ISUID, "s"); (S_ISUID, "S"); (S_IXUSR, "x") ];
    [ (S_IRGRP, "r") ];
    [ (S_IWGRP, "w") ];
    [ (Z.lor S_IXGRP S_ISGID, "s"); (S_ISGID, "S"); (S_IXGRP, "x") ];
    [ (S_IROTH, "r") ];
    [ (S_IWOTH, "w") ];
    [ (Z.lor S_IXOTH S_ISVTX, "t"); (S_ISVTX, "T"); (S_IXOTH, "x") ] ].

(** The inner [for ... else]: the first key [k] with [mode & k == k] gives
    the character; with no such key the slot is ['-']. *)
Fixpoint filemode_slot (mode : Z) (items : list (Z * string)) : string :=
  match items with
  | [] => "-"
  | (k, v) :: rest => if Z.land mode k =? k then v else filemode_slot mode rest
  end.

Definition str_join (parts : list string) : string :=
  fold_right String.app EmptyString parts.

Definition get_filemode (mode : Z) : string :=
  str_join (map (filemode_slot mode) _filemode_list).

(** The [mode] field as [get_data_information] computes it from [st_mode]. *)
Definition mode_field (st_mode : Z) : string :=
  let mode := oct (S_IMODE st_mode) in
  let mode_str := remove_char "o"%char mode in
  if (3 <? String.length mode_str)%nat then last_chars 3 mode_str else mode_str.

(** ** The two path helpers *)

(** [path[0]] raises [IndexError] on the empty string. *)
Definition remove_initial_bar_chars (path : string) : result string :=
  match path with
  | EmptyString => Raise IndexError
  | String c r => if Ascii.eqb c slash then Ok r else Ok path
  end.

(** [path[len(path) - 1]] is [path[-1]] on the empty string, which raises
    [IndexError] as well. *)
Definition remove_ending_bar_chars (path : string) : result string :=
  match last_char path with
  | None => Raise IndexError
  | Some c => if Ascii.eqb c slash then Ok (drop_last path) else Ok path
  end.

(** ** [collections.Counter] *)

(** [Counter(iterable)]: every element bumps its count, starting from 0. *)
Definition Counter (l : list string) : gmap string Z :=
  foldl (λ m s, <[s := default 0 (m !! s) + 1]> m) ∅ l.

(** [Counter.__sub__]: keep the strictly positive differences of the left
    operand, and the negated negative counts that only the right operand
    has. *)
Definition counter_sub_entry (x y : option Z) : option Z :=
  match x, y with
  | Some c, _ => let newcount := c - default 0 y in
                 if 0 <? newcount then Some newcount else None
  | None, Some c => if c <? 0 then Some (0 - c) else None
  | None, None => None
  end.

Definition counter_sub (a b : gmap string Z) : gmap string Z :=
  merge counter_sub_entry a b.

(** ** The operating system as seen by the script *)

Record stat_result := { st_mode : Z; st_uid : Z; st_gid : Z }.

(** What a path names: an object with a status, a symbolic link (with the
    path it resolves to), or something the process may not inspect. A path
    absent from the table does not exist. *)
Inductive fsnode :=
| Obj (st : stat_result)
| Link (target : string)
| NoAccess.

(** [FileNotFoundError], [PermissionError], and the other [OSError]s. *)
Inductive oserror := ENOENT | EACCES | ELOOP.

Record OS := {
  nodes : gmap string fsnode;
  passwd : gmap Z string;      (* uid -> pw_name *)
  groupdb : gmap Z string      (* gid -> gr_name *)
}.

(** [os.lstat]: the status of the path itself; a link is not followed. *)
Definition os_lstat (os : OS) (path : string) : oserror + fsnode :=
  match nodes os !! path with
  | None => inl ENOENT
  | Some NoAccess => inl EACCES
  | Some n => inr n
  end.

(** [os.stat]: symbolic links are followed, at most [fuel] of them. *)
Fixpoint stat_follow (fs : gmap string fsnode) (fuel : nat) (path : string)
  : oserror + stat_result :=
  match fs !! path with
  | None => inl ENOENT
  | Some NoAccess => inl EACCES
  | Some (Obj st) => inr st
  | Some (Link target) =>
      match fuel with
      | O => inl ELOOP
      | S f => stat_follow fs f target
      end
  end.

Definition MAXSYMLINKS : nat := 40.

Definition os_stat (os : OS) (path : string) : oserror + stat_result :=
  stat_follow (nodes os) MAXSYMLINKS path.

(** [os.path.isdir]: [S_ISDIR] of [os.stat], [False] when [os.stat] fails. *)
Definition isdir (os : OS) (path : string) : bool :=
  match os_stat os path with
  | inr st => S_IFMT (st_mode st) =? S_IFDIR
  | inl _ => false
  end.

(** [pwd.getpwuid(uid)[0]] and [grp.getgrgid(gid)[0]]; an unknown id raises
    [KeyError]. *)
Definition getpwuid (os : OS) (uid : Z) : result string :=
  match passwd os !! uid with
  | Some name => Ok name
  | None => Raise KeyError
  end.

Definition getgrgid (os : OS) (gid : Z) : result string :=
  match groupdb os !! gid with
  | Some name => Ok name
  | None => Raise KeyError
  end.

(** A status that [os.stat] can report has one of the six file types that
    are not the link type: links are followed, never reported. *)
Definition is_object_type (st_mode : Z) : bool :=
  existsb (Z.eqb (S_IFMT st_mode))
    [S_IFREG; S_IFDIR; S_IFCHR; S_IFBLK; S_IFIFO; S_IFSOCK].

Definition node_ok (n : fsnode) : bool :=
  match n with
  | Obj st => is_object_type (st_mode st)
  | _ => true
  end.

Definition wf_os (os : OS) : Prop :=
  map_Forall (λ _ n, node_ok n = true) (nodes os).

(** ** [get_data_information] *)

(** The dict the extractor returns; every value is a string or [None]. *)
Record info := {
  group : option string;
  mode : option string;
  type : option string;
  user : option string;
  prot : option string
}.

Definition info_none : info :=
  {| group := None; mode := None; type := None; user := None; prot := None |}.

(** The outer [option] is the return value itself: the [except OSError]
    branch falls off the end of the function, which returns [None]. *)
Definition get_data_information (os : OS) (item : string) : result (option info) :=
  match os_stat os item with
  | inr stat_info =>
      let* user := getpwuid os (st_uid stat_info) in
      let* group := getgrgid os (st_gid stat_info) in
      let mode := mode_field (st_mode stat_info) in
      let protection := get_filemode (st_mode stat_info) in
      let type := if isdir os item then "directory" else "file" in
      Ok (Some {| group := Some group; mode := Some mode; type := Some type;
                  user := Some user; prot := Some protection |})
  | inl ENOENT => Ok (Some info_none)
  | inl _ => Ok None
  end.

(** ** [os.walk(path, followlinks=False)] *)

(** What the walk finds at a directory. [WDir]: the directory can be
    listed; [subdirs] are its entries that are directories, each with what
    the walk finds there, and [files] the names of its other entries.
    [WSkip]: nothing is yielded for it (it cannot be listed, or it is a
    symbolic link to a directory, which [followlinks=False] does not
    enter). *)
#[local] Unset Elimination Schemes.
Inductive wtree :=
| WDir (subdirs : list (string * wtree)) (files : list string)
| WSkip.
#[local] Set Elimination Schemes.

(** [os.path.join(a, b)]. *)
Definition path_join (a b : string) : string :=
  let joined :=
    match last_char a with
    | None => a +:+ b
    | Some d => if Ascii.eqb d slash then a +:+ b else a +:+ "/" +:+ b
    end in
  match b with
  | String c _ => if Ascii.eqb c slash then b else joined
  | EmptyString => joined
  end.

(** The triples [(dirpath, dirnames, filenames)] in the order they are
    yielded (top-down). *)
Fixpoint walk_dir (top : string) (t : wtree) : list (string * list string * list string) :=
  match t with
  | WSkip => []
  | WDir subdirs files =>
      (top, map fst subdirs, files)
      :: flat_map (λ entry, walk_dir (path_join top entry.1) entry.2) subdirs
  end.

(** [os.walk] on the empty path yields nothing. *)
Definition os_walk (top : string) (fs : wtree) : list (string * list string * list string) :=
  match top with
  | EmptyString => []
  | _ => walk_dir top fs
  end.

(** The same walk with every directory named by the list of entry names
    that lead to it from the top. *)
Fixpoint walk_names (t : wtree) : list (list string * list string * list string) :=
  match t with
  | WSkip => []
  | WDir subdirs files =>
      ([], map fst subdirs, files)
      :: flat_map (λ entry, map (λ y, (entry.1 :: y.1.1, y.1.2, y.2))
                                (walk_names entry.2)) subdirs
  end.

(** The path reached from [key] through the entry names [names]. *)
Definition below (key : string) (names : list string) : string :=
  foldl (λ p n, p +:+ "/" +:+ n) key names.

(** A directory listing holds distinct names, none of them empty and none
    with a separator in it. *)
Definition no_slash (s : string) : bool :=
  string_forall (λ c, negb (Ascii.eqb c slash)) s.

Definition name_ok (n : string) : bool :=
  negb (String.eqb n EmptyString) && no_slash n.

Fixpoint wf_tree (t : wtree) : bool :=
  match t with
  | WSkip => true
  | WDir subdirs files =>
      bool_decide (NoDup (map fst subdirs ++ files))
      && forallb name_ok (map fst subdirs ++ files)
      && forallb (λ entry, wf_tree entry.2) subdirs
  end.

(** ** [get_current_items] *)

(** The loop over [ignore_folders] for one directory. [flag] is
    [flag_no_file_detected], which outlives the directory: the loop is the
    only place that assigns it (the last line of the outer loop assigns
    another name, [flag], which nothing reads). *)
Fixpoint scan_ignored (path_list : gmap string Z) (flag : bool)
    (ignore_folders : list string) : result bool :=
  match ignore_folders with
  | [] => Ok flag
  | item_ignored :: rest =>
      let* item_ignored := remove_initial_bar_chars item_ignored in
      let substract_folders := counter_sub (Counter (split item_ignored)) path_list in
      if decide (substract_folders = ∅) then Ok true
      else scan_ignored path_list false rest
  end.

(** The body of the loop over [filenames]. *)
Definition visit_file (os : OS) (ignore_folders : list string) (dirpath : string)
    (d : gmap string (option info)) (filename : string)
  : result (gmap string (option info)) :=
  let file_path := dirpath +:+ "/" +:+ filename in
  if negb (endswith file_path ".pyc") && negb (bool_decide (file_path ∈ ignore_folders))
  then let* i := get_data_information os file_path in Ok (<[file_path := i]> d)
  else Ok d.

(** The body of the loop over [os.walk]; the state is the flag and
    [files_items_dict]. *)
Definition visit (os : OS) (ignore_folders : list string)
    (s : bool * gmap string (option info))
    (y : string * list string * list string)
  : result (bool * gmap string (option info)) :=
  let '(flag_no_file_detected, files_items_dict) := s in
  let '(dirpath, dirnames, filenames) := y in
  let* dirpath := remove_ending_bar_chars dirpath in
  let* aux_dirpath := remove_initial_bar_chars dirpath in
  let path_list := Counter (split aux_dirpath) in
  let* flag_no_file_detected :=
    scan_ignored path_list flag_no_file_detected ignore_folders in
  if negb flag_no_file_detected then
    let* i := get_data_information os dirpath in
    let* d := for_each (visit_file os ignore_folders dirpath)
                (<[dirpath := i]> files_items_dict) filenames in
    Ok (flag_no_file_detected, d)
  else Ok (flag_no_file_detected, files_items_dict).

Definition get_current_items (os : OS) (path : string) (fs : wtree)
    (ignore_folders : list string) : result (gmap string (option info)) :=
  let* s := for_each (visit os ignore_folders) (false, ∅) (os_walk path fs) in
  Ok (snd s).

(** ** Vocabulary of the specification *)

(** Number of occurrences of the component [c] in [l]. *)
Fixpoint occurrences (c : string) (l : list string) : nat :=
  match l with
  | [] => O
  | x :: rest => if decide (x = c) then S (occurrences c rest) else occurrences c rest
  end.

(** Multiset containment, in the specification's words: every component
    of [a] occurs in [b] at least as often. *)
Definition multiset_contained (a b : list string) : Prop :=
  ∀ c, (occurrences c a ≤ occurrences c b)%nat.

(** The rule, with its leading separator removed, is contained in the
    components of the directory path [aux] (already normalised). *)
Definition rule_matches (rule aux : string) : Prop :=
  ∃ rule', remove_initial_bar_chars rule = Ok rule' ∧
           multiset_contained (split rule') (split aux).

(** The test that guards the recording of a file. *)
Definition file_kept (ignore_folders : list string) (file_path : string) : bool :=
  negb (endswith file_path ".pyc") && negb (bool_decide (file_path ∈ ignore_folders)).

(** [k] is the key of a visited directory that no rule matches, or of a
    kept file listed in such a directory. *)
Definition recorded (ignore_folders : list string)
    (ys : list (string * list string * list string)) (k : string) : Prop :=
  ∃ dirpath dirnames filenames key aux,
    (dirpath, dirnames, filenames) ∈ ys ∧
    remove_ending_bar_chars dirpath = Ok key ∧
    remove_initial_bar_chars key = Ok aux ∧
    (∀ r, r ∈ ignore_folders → ¬ rule_matches r aux) ∧
    (k = key ∨ ∃ f, f ∈ filenames ∧ k = key +:+ "/" +:+ f ∧
                    file_kept ignore_folders k = true).

(** ** The description written for one snapshot entry ([__main__]) *)

(** [current_items[name][field]] raises [TypeError] when the entry is
    [None]; the handler substitutes ['-']. *)
Definition field_or_dash (field : info → option string) (entry : option info)
  : option string :=
  match entry with
  | Some i => field i
  | None => Some "-"
  end.

Definition description (entry : option info) : info :=
  {| group := field_or_dash group entry;
     mode := field_or_dash mode entry;
     type := field_or_dash type entry;
     user := field_or_dash user entry;
     prot := field_or_dash prot entry |}.

(** ** Concrete environments used by the examples *)

Definition root_dir_status : stat_result :=
  {| st_mode := 16877; st_uid := 0; st_gid := 0 |}.  (* drwxr-xr-x root:root *)

(** The tree of the specification's example: [/tmp/demo] holds the
    directory [bin] (0750, root:wazuh), which holds [run.sh] (0644). *)
Definition demo_os : OS :=
  {| nodes := {[ "/tmp/demo" := Obj root_dir_status;
                 "/tmp/demo/bin" := Obj {| st_mode := 16872; st_uid := 0; st_gid := 1 |};
                 "/tmp/demo/bin/run.sh" := Obj {| st_mode := 33188; st_uid := 0; st_gid := 1 |} ]};
     passwd := {[ 0 := "root" ]};
     groupdb := {[ 0 := "root"; 1 := "wazuh" ]} |}.

Definition demo_tree : wtree := WDir [("bin", WDir [] ["run.sh"])] [].

(** The same tree after [run.sh] was removed behind the walker's back. *)
Definition gone_os : OS :=
  {| nodes := delete "/tmp/demo/bin/run.sh" (nodes demo_os);
     passwd := passwd demo_os;
     groupdb := groupdb demo_os |}.

(** The same tree with a [run.sh] whose status may not be read. *)
Definition denied_os : OS :=
  {| nodes := <["/tmp/demo/bin/run.sh" := NoAccess]> (nodes demo_os);
     passwd := passwd demo_os;
     groupdb := groupdb demo_os |}.

(** The same tree with a [run.sh] owned by a uid that has no passwd entry. *)
Definition orphan_os : OS :=
  {| nodes := <["/tmp/demo/bin/run.sh" :=
                  Obj {| st_mode := 33188; st_uid := 1234; st_gid := 1 |}]> (nodes demo_os);
     passwd := passwd demo_os;
     groupdb := groupdb demo_os |}.

(** A root [srv] that holds the directories [a/b/c] and [a/c/b], all of
    them owned by root. *)
Definition abc_tree : wtree :=
  WDir [("a", WDir [("b", WDir [("c", WDir [] [])] []);
                    ("c", WDir [("b", WDir [] [])] [])] [])] [].

Definition abc_os : OS :=
  {| nodes := {[ "srv" := Obj root_dir_status;
                 "srv/a" := Obj root_dir_status;
                 "srv/a/b" := Obj root_dir_status;
                 "srv/a/b/c" := Obj root_dir_status;
                 "srv/a/c" := Obj root_dir_status;
                 "srv/a/c/b" := Obj root_dir_status ]};
     passwd := {[ 0 := "root" ]};
     groupdb := {[ 0 := "root" ]} |}.

(** The same tree with a link [/tmp/demo/cur] to the directory [bin]. *)
Definition link_os : OS :=
  {| nodes := <["/tmp/demo/cur" := Link "/tmp/demo/bin"]> (nodes demo_os);
     passwd := passwd demo_os;
     groupdb := groupdb demo_os |}.

(** ** Reading a permission string back *)

(** The bits that a table stands for when its slot shows [c]: the key of
    the first entry with that character, no bit for ['-']. *)
Fixpoint slot_bits (items : list (Z * string)) (c : ascii) : Z :=
  match items with
  | [] => 0
  | (k, v) :: rest =>
      if String.eqb v (String c EmptyString) then k else slot_bits rest c
  end.

Fixpoint filemode_bits_from (tables : list (list (Z * string))) (s : string) : Z :=
  match tables, s with
  | items :: tables', String c s' =>
      Z.lor (slot_bits items c) (filemode_bits_from tables' s')
  | _, _ => 0
  end.

(** The permission bits that the nine characters after the type character
    stand for. *)
Definition filemode_bits (s : string) : Z :=
  match s with
  | String _ s' => filemode_bits_from (tail _filemode_list) s'
  | EmptyString => 0
  end.

(** ** The node of the walk tree reached through entry names *)

Fixpoint lookup_entry (n : string) (subdirs : list (string * wtree)) : option wtree :=
  match subdirs with
  | [] => None
  | (m, sub) :: rest => if decide (m = n) then Some sub else lookup_entry n rest
  end.

Fixpoint subtree (t : wtree) (names : list string) : option wtree :=
  match names with
  | [] => Some t
  | n :: rest =>
      match t with
      | WDir subdirs _ =>
          match lookup_entry n subdirs with
          | Some sub => subtree sub rest
          | None => None
          end
      | WSkip => None
      end
  end.

(** ** The entry point [__main__] *)

(** [s.split(sep)] for a one-character separator. *)
Fixpoint split_on (sep : ascii) (s : string) : list string :=
  match s with
  | EmptyString => [EmptyString]
  | String c r =>
      if Ascii.eqb c sep then EmptyString :: split_on sep r
      else match split_on sep r with
           | h :: t => String c h :: t
           | [] => [String c EmptyString]
           end
  end.

(** [sorted(d)] for a dict [d] keyed by strings: its keys in ascending
    order. Python orders strings by code point, which on their UTF-8 bytes
    is the bytewise lexicographic order [String.le]. *)
Definition sorted_keys {A} (d : gmap string A) : list string :=
  merge_sort String.le (map_to_list d).*1.

(** One element of the list under ["data"] in the written file. *)
Record element := {
  el_id : nat;
  el_name : string;
  el_description : info
}.

(** The body of the loop over [sorted(current_items)]; the state is [i],
    [description_list] and [element_list]. [current_items[name]] raises
    [KeyError] for a missing name and [description_list[i]] raises
    [IndexError] out of range. *)
Definition main_step (current_items : gmap string (option info))
    (s : nat * list info * list element) (name : string)
  : result (nat * list info * list element) :=
  let '(i, description_list, element_list) := s in
  let* entry := match current_items !! name with
                | Some entry => Ok entry
                | None => Raise KeyError
                end in
  let description_list := description_list ++ [description entry] in
  let* d := match description_list !! i with
            | Some d => Ok d
            | None => Raise IndexError
            end in
  Ok (S i, description_list,
      element_list ++ [{| el_id := i; el_name := name; el_description := d |}]).

(** How the script ends: the list it writes, or the exception that the
    handler prints and raises again. [NameError] is the use of
    [ignore_folders] when no assignment to it was executed. *)
Inductive main_exn :=
| NameError
| Propagated (e : exn).

Inductive main_result :=
| Written (data : list element)
| Failed (e : main_exn).

(** The [try] block, from the arguments [--path] and [--ignore] ([None]
    when the option is absent). *)
Definition main (os : OS) (fs : wtree) (path : string) (ignore : option string)
  : main_result :=
  match ignore with
  | Some (String _ _ as arg) =>
      let ignore_folders := split_on ","%char arg in
      match
        (let* current_items := get_current_items os path fs ignore_folders in
         let* s := for_each (main_step current_items) (O, [], [])
                     (sorted_keys current_items) in
         Ok s.2)
      with
      | Ok element_list => Written element_list
      | Raise e => Failed (Propagated e)
      end
  | _ => Failed NameError
  end.

(** The example tree with the link [cur] to the directory [bin]: the walk
    lists [cur] among the directories and does not enter it. *)
Definition link_tree : wtree :=
  WDir [("bin", WDir [] ["run.sh"]); ("cur", WSkip)] [].

(** Two links that do not resolve: [self] points to itself and [old] to a
    path that does not exist. *)
Definition broken_links_os : OS :=
  {| nodes := {[ "/tmp/demo/self" := Link "/tmp/demo/self";
                 "/tmp/demo/old" := Link "/tmp/demo/gone" ]};
     passwd := {[ 0 := "root" ]};
     groupdb := {[ 0 := "root" ]} |}.

(** * Properties *)

(** ** Strings *)

Section strings.
Implicit Types s t u : string.

Lemma string_app_cons c s t : String c s +:+ t = String c (s +:+ t).
Proof. reflexivity. Qed.

Lemma string_app_nil_l s : EmptyString +:+ s = s.
Proof. reflexivity. Qed.

Lemma string_app_length s t :
  String.length (s +:+ t) = (String.length s + String.length t)%nat.
Proof.
  induction s as [|c s IH]; [done |].
  rewrite string_app_cons. simpl. by rewrite IH.
Qed.

Lemma string_app_assoc s t u : (s +:+ t) +:+ u = s +:+ t +:+ u.
Proof.
  induction s as [|c s IH]; [done |].
  rewrite !string_app_cons. by rewrite IH.
Qed.

Lemma string_app_nil_r s : s +:+ EmptyString = s.
Proof.
  induction s as [|c s IH]; [done |].
  rewrite string_app_cons. by rewrite IH.
Qed.
End strings.

(** ** The permission strings *)

Lemma filemode_slot_length mode items :
  Forall (λ kv, String.length kv.2 = 1%nat) items →
  String.length (filemode_slot mode items) = 1%nat.
Proof.
  induction 1 as [|[k v] rest Hv _ IH]; simpl; [done |].
  by destruct (Z.land mode k =? k).
Qed.

Lemma str_join_length parts :
  Forall (λ p, String.length p = 1%nat) parts →
  String.length (str_join parts) = length parts.
Proof.
  induction 1 as [|p rest Hp _ IH]; simpl; [done |].
  by rewrite string_app_length, Hp, IH.
Qed.

(** The symbolic string always has ten characters, one per table. *)
Lemma get_filemode_length mode : String.length (get_filemode mode) = 10%nat.
Proof.
  unfold get_filemode. rewrite str_join_length.
  - by rewrite length_map.
  - apply Forall_map, Forall_forall. intros items Hin.
    apply filemode_slot_length.
    revert items Hin. apply Forall_forall.
    unfold _filemode_list. repeat constructor.
Qed.

Lemma S_IMODE_range m : 0 ≤ S_IMODE m < 4096.
Proof.
  unfold S_IMODE. change 4095 with (Z.ones 12).
  rewrite Z.land_ones by lia. apply Z.mod_pos_bound. lia.
Qed.

(** Checking a decidable property of every twelve-bit value. *)
Lemma forall_perm_bits (P : Z → bool) :
  forallb (λ i, P (Z.of_nat i)) (seq 0 4096) = true →
  ∀ n, 0 ≤ n < 4096 → P n = true.
Proof.
  intros Hall n Hn. rewrite forallb_forall in Hall.
  specialize (Hall (Z.to_nat n)). rewrite Z2Nat.id in Hall by lia.
  apply Hall, in_seq. lia.
Qed.

(** [oct] on the permission bits: the prefix, then digits that denote the
    number (the digit loop has fuel to spare). *)
Lemma oct_permission_bits n :
  0 ≤ n < 4096 →
  ∃ digits, oct n = "0o" +:+ digits ∧
            string_forall is_octal_digit digits = true ∧
            octal_value digits = n.
Proof.
  intros Hn. exists (octal_digits (S (Z.to_nat (Z.log2 n))) n).
  split; [done |].
  pose (P := λ n : Z,
    let digits := octal_digits (S (Z.to_nat (Z.log2 n))) n in
    string_forall is_octal_digit digits && (octal_value digits =? n)).
  assert (HP : P n = true).
  { apply forall_perm_bits; [| done]. vm_compute. reflexivity. }
  unfold P in HP. apply andb_true_iff in HP as [H1 H2].
  split; [done |]. by apply Z.eqb_eq.
Qed.

(** The octal field consists of octal digits; it has three of them unless
    the permission bits are below [0o10], when it has two. *)
Lemma mode_field_shape st_mode :
  string_forall is_octal_digit (mode_field st_mode) = true ∧
  String.length (mode_field st_mode) = if S_IMODE st_mode <? 8 then 2%nat else 3%nat.
Proof.
  unfold mode_field. generalize (S_IMODE_range st_mode).
  generalize (S_IMODE st_mode). intros n Hn.
  pose (P := λ n : Z,
    let s := (let mode_str := remove_char "o" (oct n) in
              if (3 <? String.length mode_str)%nat
              then last_chars 3 mode_str else mode_str) in
    string_forall is_octal_digit s
    && Nat.eqb (String.length s) (if n <? 8 then 2%nat else 3%nat)).
  assert (HP : P n = true).
  { apply forall_perm_bits; [| done]. vm_compute. reflexivity. }
  unfold P in HP. apply andb_true_iff in HP as [H1 H2].
  split; [done |]. by apply Nat.eqb_eq in H2.
Qed.

(** C5. The symbolic permission string has ten characters for every raw
    mode, but the octal field of a file whose permission bits are below
    [0o10] has two characters, not three: a regular file with mode 004
    (raw mode [0o100004]) gets ["04"]. *)
Theorem C5_mode_octal_two_digits :
  let st_mode := Z.lor S_IFREG S_IROTH in
  get_filemode st_mode = "-------r--" ∧
  String.length (get_filemode st_mode) = 10%nat ∧
  mode_field st_mode = "04" ∧
  String.length (mode_field st_mode) = 2%nat.
Proof. vm_compute. done. Qed.

(** ** The extractor *)

Lemma bind_ok {A B} (r : result A) (k : A → result B) b :
  bind r k = Ok b ↔ ∃ a, r = Ok a ∧ k a = Ok b.
Proof.
  destruct r as [a|e]; simpl; split.
  - intros H. by exists a.
  - by intros (a' & [= ->] & H).
  - done.
  - by intros (a' & [=] & _).
Qed.


Lemma os_lstat_link os path target :
  os_lstat os path = inr (Link target) → nodes os !! path = Some (Link target).
Proof.
  unfold os_lstat. destruct (nodes os !! path) as [[| |]|]; try done.
  by intros [= ->].
Qed.


Lemma stat_follow_object fs fuel path st :
  map_Forall (λ _ n, node_ok n = true) fs →
  stat_follow fs fuel path = inr st → is_object_type (st_mode st) = true.
Proof.
  intros Hwf. revert path. induction fuel as [|fuel IH]; intros path; simpl.
  - destruct (fs !! path) as [[| |]|] eqn:E; try done.
    intros [= ->]. by apply (Hwf _ _ E).
  - destruct (fs !! path) as [[| |]|] eqn:E; try done.
    + intros [= ->]. by apply (Hwf _ _ E).
    + apply IH.
Qed.



(** C3 (as stated, refuted). [run.sh] has vanished: the extractor returns a
    record, but its five fields are [None], not the placeholder ['-'], the
    kind is not [unknown], and the description written for it keeps the
    five [None]s. *)
Lemma C3_missing_path_not_sentinel :
  os_stat gone_os "/tmp/demo/bin/run.sh" = inl ENOENT ∧
  ∃ i, get_data_information gone_os "/tmp/demo/bin/run.sh" = Ok (Some i) ∧
       user i ≠ Some "-" ∧ group i ≠ Some "-" ∧ mode i ≠ Some "-" ∧
       prot i ≠ Some "-" ∧ type i ≠ Some "-" ∧ type i ≠ Some "unknown" ∧
       description (Some i) = info_none.
Proof.
  split; [by vm_compute |].
  exists info_none. split; [by vm_compute |]. by repeat split.
Qed.

(** C3 (amended). For every path whose status lookup fails because the
    target does not exist, the extractor returns, without raising, a record
    whose five fields are all [None]; the description written for such an
    entry holds the same five [None]s. *)
Theorem C3_missing_path_all_none os path :
  os_stat os path = inl ENOENT →
  get_data_information os path = Ok (Some info_none) ∧
  description (Some info_none) = info_none.
Proof.
  intros H. unfold get_data_information. by rewrite H.
Qed.

Lemma C3_missing_path_all_none_witness :
  get_data_information gone_os "/tmp/demo/bin/run.sh" = Ok (Some info_none) ∧
  description (Some info_none) = info_none.
Proof.
  apply (C3_missing_path_all_none gone_os "/tmp/demo/bin/run.sh").
  vm_compute. reflexivity.
Defined.







(** The link to [bin] is described as the directory [bin] is. *)
Example link_to_directory :
  os_lstat link_os "/tmp/demo/cur" = inr (Link "/tmp/demo/bin") ∧
  get_data_information link_os "/tmp/demo/cur"
    = Ok (Some {| group := Some "wazuh"; mode := Some "750";
                  type := Some "directory"; user := Some "root";
                  prot := Some "drwxr-x---" |}).
Proof. split; by vm_compute. Qed.

(** ** One step of the walk *)

Lemma for_each_cons {A S} (body : S → A → result S) s x xs :
  for_each body s (x :: xs) = let* s' := body s x in for_each body s' xs.
Proof. reflexivity. Qed.

Lemma for_each_nil {A S} (body : S → A → result S) s : for_each body s [] = Ok s.
Proof. reflexivity. Qed.

Section visit.
Context (os : OS) (ignore_folders : list string).
Implicit Types d : gmap string (option info).

(** A directory matched by an ignore rule leaves the dict untouched. *)
Lemma visit_excluded flag d dirpath dirnames filenames key aux :
  remove_ending_bar_chars dirpath = Ok key →
  remove_initial_bar_chars key = Ok aux →
  scan_ignored (Counter (split aux)) flag ignore_folders = Ok true →
  visit os ignore_folders (flag, d) (dirpath, dirnames, filenames) = Ok (true, d).
Proof. intros H1 H2 H3. unfold visit. rewrite H1. simpl. rewrite H2. simpl. by rewrite H3. Qed.

(** A directory that no rule matches is recorded under its key, then its
    files are. *)
Lemma visit_recorded flag d dirpath dirnames filenames key aux :
  remove_ending_bar_chars dirpath = Ok key →
  remove_initial_bar_chars key = Ok aux →
  scan_ignored (Counter (split aux)) flag ignore_folders = Ok false →
  visit os ignore_folders (flag, d) (dirpath, dirnames, filenames)
  = let* i := get_data_information os key in
    let* d' := for_each (visit_file os ignore_folders key) (<[key := i]> d) filenames in
    Ok (false, d').
Proof. intros H1 H2 H3. unfold visit. rewrite H1. simpl. rewrite H2. simpl. by rewrite H3. Qed.

(** A step that returns has normalised the path and taken a decision. *)
Lemma visit_ok_inv flag d y flag' d' :
  visit os ignore_folders (flag, d) y = Ok (flag', d') →
  ∃ key aux,
    remove_ending_bar_chars y.1.1 = Ok key ∧
    remove_initial_bar_chars key = Ok aux ∧
    scan_ignored (Counter (split aux)) flag ignore_folders = Ok flag' ∧
    if flag' then d' = d
    else ∃ i, get_data_information os key = Ok i ∧
              for_each (visit_file os ignore_folders key) (<[key := i]> d) y.2 = Ok d'.
Proof.
  destruct y as [[dirpath dirnames] filenames]. unfold visit.
  intros H. apply bind_ok in H as (key & Hkey & H).
  apply bind_ok in H as (aux & Haux & H).
  apply bind_ok in H as (b & Hb & H).
  exists key, aux. simpl. repeat split; try done.
  - destruct b; simpl in H.
    + by injection H as <- <-.
    + apply bind_ok in H as (i & Hi & H).
      apply bind_ok in H as (d1 & Hd1 & H). by injection H as <- <-.
  - destruct b; simpl in H.
    + by injection H as <- <-.
    + apply bind_ok in H as (i & Hi & H).
      apply bind_ok in H as (d1 & Hd1 & H). injection H as <- <-.
      by exists i.
Qed.
End visit.

(** ** The root path [/] *)

(** C9. For the root path [/], when the root can be listed, the walk
    returns no snapshot: stripping the trailing separator leaves the empty
    string, and reading its first character raises [IndexError] at the
    first directory visited. *)
Theorem C9_root_slash_raises os ignore_folders subdirs files :
  remove_ending_bar_chars "/" = Ok EmptyString ∧
  remove_initial_bar_chars EmptyString = Raise IndexError ∧
  get_current_items os "/" (WDir subdirs files) ignore_folders = Raise IndexError.
Proof. repeat split. Qed.

(** ** The specification's example tree *)

(** C2 (as stated, refuted). With the rule [/tmp/demo/bin] the snapshot
    of the example tree is not empty: the root [/tmp/demo] is recorded. *)
Lemma C2_snapshot_not_empty :
  ∃ snap, get_current_items demo_os "/tmp/demo" demo_tree ["/tmp/demo/bin"] = Ok snap ∧
          snap ≠ ∅ ∧
          snap !! "/tmp/demo"
            = Some (Some {| group := Some "root"; mode := Some "755";
                            type := Some "directory"; user := Some "root";
                            prot := Some "drwxr-xr-x" |}).
Proof.
  eexists. split; [by vm_compute |]. split.
  - intros H. apply (f_equal (λ m : gmap string (option info), m !! "/tmp/demo")) in H.
    vm_compute in H. done.
  - by vm_compute.
Qed.

(** C2 (amended). With the rule [/tmp/demo/bin], the walk over the example
    tree records exactly one path, the root [/tmp/demo] itself, with what
    the extractor returns for it; there is no entry for [/tmp/demo/bin] or
    [/tmp/demo/bin/run.sh]. *)
Theorem C2_only_root_recorded os :
  get_current_items os "/tmp/demo" demo_tree ["/tmp/demo/bin"]
  = let* i := get_data_information os "/tmp/demo" in Ok {[ "/tmp/demo" := i ]}.
Proof.
  unfold get_current_items.
  change (os_walk "/tmp/demo" demo_tree)
    with [("/tmp/demo", ["bin"], @nil string); ("/tmp/demo/bin", [], ["run.sh"])].
  rewrite for_each_cons.
  rewrite (visit_recorded os _ _ _ _ _ _ "/tmp/demo" "tmp/demo");
    [| by vm_compute ..].
  destruct (get_data_information os "/tmp/demo") as [i|e]; [| done].
  cbn [bind]. rewrite for_each_nil. cbn [bind]. rewrite for_each_cons.
  rewrite (visit_excluded os _ _ _ _ _ _ "/tmp/demo/bin" "tmp/demo/bin");
    [| by vm_compute ..].
  simpl. by rewrite insert_empty.
Qed.

(** ** Counters and multiset containment *)

Section counter.
Implicit Types l a b : list string.
Implicit Types c : string.

Lemma occurrences_app c l1 l2 :
  occurrences c (l1 ++ l2) = (occurrences c l1 + occurrences c l2)%nat.
Proof.
  induction l1 as [|x l1 IH]; simpl; [done |].
  destruct (decide (x = c)); simpl; by rewrite IH.
Qed.

Lemma Counter_snoc l x :
  Counter (l ++ [x]) = <[x := default 0 (Counter l !! x) + 1]> (Counter l).
Proof. unfold Counter. by rewrite foldl_app. Qed.

(** A counter holds exactly the positive occurrence counts. *)
Lemma Counter_lookup l c :
  Counter l !! c =
    if decide (occurrences c l = O) then None else Some (Z.of_nat (occurrences c l)).
Proof.
  induction l as [|x l IH] using rev_ind; [done |].
  rewrite Counter_snoc, occurrences_app. simpl.
  destruct (decide (x = c)) as [->|Hne].
  - rewrite lookup_insert_eq, IH.
    destruct (decide (occurrences c l = O)) as [->|?]; simpl.
    + done.
    + rewrite decide_False by lia. f_equal. lia.
  - rewrite lookup_insert_ne by done. rewrite IH.
    by rewrite Nat.add_0_r.
Qed.

(** The script's test [Counter(rule) - Counter(path) == {}] is multiset
    containment. *)
Lemma counter_sub_empty a b :
  counter_sub (Counter a) (Counter b) = ∅ ↔ multiset_contained a b.
Proof.
  unfold multiset_contained. rewrite map_empty. unfold counter_sub.
  split; intros H c; specialize (H c); revert H;
    rewrite lookup_merge, !Counter_lookup;
    destruct (decide (occurrences c a = O)) as [Ha|Ha],
             (decide (occurrences c b = O)) as [Hb|Hb]; simpl;
    try (case_match; [| done]); try done; try lia.
  all: try (destruct (0 <? _) eqn:E; [apply Z.ltb_lt in E | apply Z.ltb_ge in E]);
    try done; try lia.
Qed.

Lemma multiset_contained_app_r a b1 b2 :
  multiset_contained a b1 → multiset_contained a (b1 ++ b2).
Proof. intros H c. rewrite occurrences_app. specialize (H c). lia. Qed.
End counter.

(** ** The loop over the ignore rules *)

Section scan.
Context (aux : string).
Implicit Types rules : list string.

Lemma scan_ignored_nil flag :
  scan_ignored (Counter (split aux)) flag [] = Ok flag.
Proof. reflexivity. Qed.

(** Leaving the loop with [True] means a rule matched (the loop ran). *)
Lemma scan_ignored_true flag rules :
  scan_ignored (Counter (split aux)) flag rules = Ok true →
  (∃ r, r ∈ rules ∧ rule_matches r aux) ∨ (rules = [] ∧ flag = true).
Proof.
  revert flag. induction rules as [|r rules IH]; intros flag; simpl.
  - intros [= ->]. by right.
  - intros H. left. apply bind_ok in H as (r' & Hr' & H).
    destruct (decide (counter_sub (Counter (split r')) (Counter (split aux)) = ∅))
      as [He|Hne].
    + exists r. split; [left |]. exists r'. split; [done |].
      by apply counter_sub_empty.
    + apply IH in H as [(r0 & Hin & Hm) | [_ [=]]].
      exists r0. split; [by right | done].
Qed.

(** Leaving it with [False] means that no rule matched. *)
Lemma scan_ignored_false flag rules :
  scan_ignored (Counter (split aux)) flag rules = Ok false →
  (∀ r, r ∈ rules → ¬ rule_matches r aux) ∧ (rules = [] → flag = false).
Proof.
  revert flag. induction rules as [|r rules IH]; intros flag; simpl.
  - intros [= ->]. split; [| done]. intros r Hr. by apply elem_of_nil in Hr.
  - intros H. apply bind_ok in H as (r' & Hr' & H).
    destruct (decide (counter_sub (Counter (split r')) (Counter (split aux)) = ∅))
      as [He|Hne]; [done |].
    apply IH in H as [Hall _]. split; [| done].
    intros r0 [->|Hin]%elem_of_cons; [| by apply Hall].
    intros (r'' & Hr'' & Hm). rewrite Hr' in Hr''. injection Hr'' as <-.
    by apply Hne, counter_sub_empty.
Qed.


(** From a state in which the flag is clear whenever there is no rule,
    the decision is [True] exactly when some rule matches. *)
Lemma scan_ignored_decision flag rules b :
  (rules = [] → flag = false) →
  scan_ignored (Counter (split aux)) flag rules = Ok b →
  b = true ↔ ∃ r, r ∈ rules ∧ rule_matches r aux.
Proof.
  intros Hflag H. destruct b.
  - apply scan_ignored_true in H as [H | [Hnil Ht]].
    + done.
    + rewrite Hflag in Ht; done.
  - apply scan_ignored_false in H as [Hall _]. split; [done |].
    intros (r & Hin & Hm). by destruct (Hall r Hin).
Qed.
End scan.

(** ** What the walk records *)

Section walk.
Context (os : OS) (ignore_folders : list string).
Implicit Types d : gmap string (option info).
Implicit Types ys : list (string * list string * list string).

Lemma visit_file_ok_inv key d f d' :
  visit_file os ignore_folders key d f = Ok d' →
  (file_kept ignore_folders (key +:+ "/" +:+ f) = false ∧ d' = d) ∨
  (file_kept ignore_folders (key +:+ "/" +:+ f) = true ∧
   ∃ i, get_data_information os (key +:+ "/" +:+ f) = Ok i ∧
        d' = <[key +:+ "/" +:+ f := i]> d).
Proof.
  unfold visit_file, file_kept.
  destruct (negb _ && negb _).
  - intros H. apply bind_ok in H as (i & Hi & [= <-]). right. eauto.
  - intros [= <-]. by left.
Qed.

(** Every entry after the loop over the files was there before, or is
    the extractor's result for a kept file. *)
Lemma files_sound key filenames d d' k v :
  for_each (visit_file os ignore_folders key) d filenames = Ok d' →
  d' !! k = Some v →
  d !! k = Some v ∨
  (get_data_information os k = Ok v ∧
   ∃ f, f ∈ filenames ∧ k = key +:+ "/" +:+ f ∧ file_kept ignore_folders k = true).
Proof.
  revert d. induction filenames as [|f fs IH]; intros d.
  - intros [= <-]. by left.
  - rewrite for_each_cons. intros H Hk.
    apply bind_ok in H as (d1 & Hd1 & H).
    destruct (IH _ H Hk) as [Hin | (Hv & f' & Hf' & -> & Hkept)].
    + apply visit_file_ok_inv in Hd1 as [[_ ->] | (Hkept & i & Hi & ->)];
        [by left |].
      destruct (decide (key +:+ "/" +:+ f = k)) as [<-|Hne].
      * rewrite lookup_insert_eq in Hin. injection Hin as <-.
        right. split; [done |]. exists f. split; [left | done].
      * rewrite lookup_insert_ne in Hin by done. by left.
    + right. split; [done |]. exists f'. split; [by right | done].
Qed.

(** An entry that holds the extractor's result for its key survives. *)
Lemma files_stable key filenames d d' k v :
  for_each (visit_file os ignore_folders key) d filenames = Ok d' →
  get_data_information os k = Ok v →
  d !! k = Some v → d' !! k = Some v.
Proof.
  revert d. induction filenames as [|f fs IH]; intros d.
  - by intros [= <-].
  - rewrite for_each_cons. intros H Hv Hk.
    apply bind_ok in H as (d1 & Hd1 & H). apply (IH _ H Hv).
    apply visit_file_ok_inv in Hd1 as [[_ ->] | (Hkept & i & Hi & ->)]; [done |].
    destruct (decide (key +:+ "/" +:+ f = k)) as [<-|Hne].
    + rewrite lookup_insert_eq. congruence.
    + by rewrite lookup_insert_ne.
Qed.

(** Every kept file of the directory gets an entry. *)
Lemma files_complete key filenames d d' f :
  for_each (visit_file os ignore_folders key) d filenames = Ok d' →
  f ∈ filenames →
  file_kept ignore_folders (key +:+ "/" +:+ f) = true →
  ∃ v, get_data_information os (key +:+ "/" +:+ f) = Ok v ∧
       d' !! (key +:+ "/" +:+ f) = Some v.
Proof.
  revert d. induction filenames as [|f0 fs IH]; intros d.
  - intros _ Hin. by apply elem_of_nil in Hin.
  - rewrite for_each_cons. intros H Hin Hkept.
    apply bind_ok in H as (d1 & Hd1 & H).
    apply elem_of_cons in Hin as [->|Hin]; [| by eapply IH].
    apply visit_file_ok_inv in Hd1 as [[Hk _] | (_ & i & Hi & ->)];
      [congruence |].
    exists i. split; [done |].
    eapply files_stable; [done | done |]. by rewrite lookup_insert_eq.
Qed.

(** The flag is clear whenever there is no rule: it starts clear, and
    only the loop over the rules assigns it. *)
Lemma walk_flag ys flag d flag' d' :
  for_each (visit os ignore_folders) (flag, d) ys = Ok (flag', d') →
  (ignore_folders = [] → flag = false) →
  (ignore_folders = [] → flag' = false).
Proof.
  revert flag d. induction ys as [|y ys IH]; intros flag d.
  - by intros [= <- <-].
  - rewrite for_each_cons. intros H Hflag.
    apply bind_ok in H as ([flag1 d1] & Hstep & H).
    apply (IH _ _ H). intros Hnil.
    apply visit_ok_inv in Hstep as (key & aux & _ & _ & Hscan & _).
    rewrite Hnil in Hscan. injection Hscan as <-. by apply Hflag.
Qed.

(** Every entry of the walk's dict was there before, or is the
    extractor's result for a recorded path. *)
Lemma walk_sound ys flag d flag' d' k v :
  for_each (visit os ignore_folders) (flag, d) ys = Ok (flag', d') →
  (ignore_folders = [] → flag = false) →
  d' !! k = Some v →
  d !! k = Some v ∨
  (get_data_information os k = Ok v ∧ recorded ignore_folders ys k).
Proof.
  revert flag d. induction ys as [|y ys IH]; intros flag d.
  - intros [= <- <-]. by left.
  - rewrite for_each_cons. intros H Hflag Hk.
    apply bind_ok in H as ([flag1 d1] & Hstep & H).
    assert (Hflag1 : ignore_folders = [] → flag1 = false).
    { apply (walk_flag [y] flag d flag1 d1); [| done].
      rewrite for_each_cons, Hstep. done. }
    destruct (IH _ _ H Hflag1 Hk) as [Hin | [Hv Hrec]].
    + destruct y as [[dirpath dirnames] filenames].
      apply visit_ok_inv in Hstep as (key & aux & Hkey & Haux & Hscan & Hd).
      simpl in Hkey, Hd. destruct flag1.
      * subst d1. by left.
      * destruct Hd as (i & Hi & Hfiles).
        apply scan_ignored_false in Hscan as [Hnone _].
        destruct (files_sound _ _ _ _ _ _ Hfiles Hin) as [Hd | [Hv Hf]].
        -- destruct (decide (key = k)) as [<-|Hne].
           ++ rewrite lookup_insert_eq in Hd. injection Hd as <-.
              right. split; [done |].
              exists dirpath, dirnames, filenames, key, aux.
              repeat split; try done; by left.
           ++ rewrite lookup_insert_ne in Hd by done. by left.
        -- right. split; [done |].
           exists dirpath, dirnames, filenames, key, aux.
           repeat split; try done; [by left | by right].
    + right. split; [done |].
      destruct Hrec as (p & ds & fs & key & aux & Hin & Hrest).
      exists p, ds, fs, key, aux. split; [by right | done].
Qed.

Lemma walk_stable ys flag d flag' d' k v :
  for_each (visit os ignore_folders) (flag, d) ys = Ok (flag', d') →
  get_data_information os k = Ok v →
  d !! k = Some v → d' !! k = Some v.
Proof.
  revert flag d. induction ys as [|y ys IH]; intros flag d.
  - by intros [= <- <-].
  - rewrite for_each_cons. intros H Hv Hk.
    apply bind_ok in H as ([flag1 d1] & Hstep & H). apply (IH _ _ H Hv).
    apply visit_ok_inv in Hstep as (key & aux & _ & _ & _ & Hd).
    destruct flag1; [by subst d1 |].
    destruct Hd as (i & Hi & Hfiles).
    apply (files_stable _ _ _ _ _ _ Hfiles Hv).
    destruct (decide (key = k)) as [<-|Hne].
    + rewrite lookup_insert_eq. congruence.
    + by rewrite lookup_insert_ne.
Qed.

(** Every recorded path has an entry, the extractor's result for it. *)
Lemma walk_complete ys flag d flag' d' k :
  for_each (visit os ignore_folders) (flag, d) ys = Ok (flag', d') →
  (ignore_folders = [] → flag = false) →
  recorded ignore_folders ys k →
  ∃ v, get_data_information os k = Ok v ∧ d' !! k = Some v.
Proof.
  revert flag d. induction ys as [|y ys IH]; intros flag d.
  - intros _ _ (p & ds & fs & key & aux & Hin & _). by apply elem_of_nil in Hin.
  - rewrite for_each_cons. intros H Hflag Hrec.
    apply bind_ok in H as ([flag1 d1] & Hstep & H).
    assert (Hflag1 : ignore_folders = [] → flag1 = false).
    { apply (walk_flag [y] flag d flag1 d1); [| done].
      rewrite for_each_cons, Hstep. done. }
    destruct Hrec as (p & ds & fs & key & aux & Hin & Hkey & Haux & Hnone & Hk).
    apply elem_of_cons in Hin as [<-|Hin].
    + apply visit_ok_inv in Hstep as (key' & aux' & Hkey' & Haux' & Hscan & Hd).
      simpl in Hkey', Hd. rewrite Hkey in Hkey'. injection Hkey' as <-.
      rewrite Haux in Haux'. injection Haux' as <-.
      destruct flag1.
      * apply (scan_ignored_decision _ _ _ _ Hflag) in Hscan.
        destruct Hscan as [Hscan _].
        destruct (Hscan eq_refl) as (r & Hr & Hm). by destruct (Hnone r Hr).
      * destruct Hd as (i & Hi & Hfiles).
        assert (∃ v, get_data_information os k = Ok v ∧ d1 !! k = Some v)
          as (v & Hv & Hd1).
        { destruct Hk as [->|(f & Hf & -> & Hkept)].
          - exists i. split; [done |].
            eapply files_stable; [done | done |]. by rewrite lookup_insert_eq.
          - by eapply files_complete. }
        exists v. split; [done |]. by eapply walk_stable.
    + eapply IH; [done | done |].
      exists p, ds, fs, key, aux. done.
Qed.

(** The snapshot holds exactly the recorded paths, each with the
    extractor's result. *)
Lemma get_current_items_spec path fs snap k v :
  get_current_items os path fs ignore_folders = Ok snap →
  snap !! k = Some v ↔
  get_data_information os k = Ok v ∧ recorded ignore_folders (os_walk path fs) k.
Proof.
  unfold get_current_items. intros H.
  apply bind_ok in H as ([flag d] & Hrun & [= <-]). simpl. split.
  - intros Hk. destruct (walk_sound _ _ _ _ _ _ _ Hrun (λ _, eq_refl) Hk)
      as [He | ?]; [| done].
    by rewrite lookup_empty in He.
  - intros [Hv Hrec].
    destruct (walk_complete _ _ _ _ _ _ Hrun (λ _, eq_refl) Hrec) as (v' & Hv' & Hk).
    congruence.
Qed.
End walk.

(** ** Paths whose status may not be read *)

(** C4 (as stated, refuted). The status of [run.sh] may not be read: the
    extractor returns [None], and the snapshot does have the key
    [/tmp/demo/bin/run.sh], bound to that [None]. *)
Lemma C4_denied_path_is_a_key :
  os_stat denied_os "/tmp/demo/bin/run.sh" = inl EACCES ∧
  ∃ snap, get_current_items denied_os "/tmp/demo" demo_tree [] = Ok snap ∧
          snap !! "/tmp/demo/bin/run.sh" = Some None ∧
          "/tmp/demo/bin/run.sh" ∈ dom snap.
Proof.
  split; [by vm_compute |]. eexists. split; [by vm_compute |].
  assert (H : ∀ m : gmap string (option info),
             m !! "/tmp/demo/bin/run.sh" = Some None →
             m !! "/tmp/demo/bin/run.sh" = Some None ∧ "/tmp/demo/bin/run.sh" ∈ dom m).
  { intros m Hm. split; [done |]. apply elem_of_dom. by rewrite Hm. }
  apply H. by vm_compute.
Qed.

(** C4 (amended). For every path whose status read fails with permission
    denied, the extractor returns [None] instead of a record, and a path
    the walk records stays a key of the returned mapping, bound to that
    [None]; the description written for it has the placeholder ['-'] in
    its five fields. *)
Theorem C4_denied_path_kept os path fs ignore_folders snap k :
  get_current_items os path fs ignore_folders = Ok snap →
  recorded ignore_folders (os_walk path fs) k →
  os_stat os k = inl EACCES →
  get_data_information os k = Ok None ∧
  snap !! k = Some None ∧
  description (snap !!! k)
  = {| group := Some "-"; mode := Some "-"; type := Some "-";
       user := Some "-"; prot := Some "-" |}.
Proof.
  intros Hrun Hrec Hst.
  assert (Hv : get_data_information os k = Ok None).
  { unfold get_data_information. by rewrite Hst. }
  assert (Hk : snap !! k = Some None).
  { by apply (get_current_items_spec _ _ _ _ _ _ _ Hrun). }
  repeat split; try done.
  by rewrite (lookup_total_correct _ _ _ Hk).
Qed.

Lemma demo_run_sh_recorded :
  recorded [] (os_walk "/tmp/demo" demo_tree) "/tmp/demo/bin/run.sh".
Proof.
  exists "/tmp/demo/bin", [], ["run.sh"], "/tmp/demo/bin", "tmp/demo/bin".
  repeat split.
  - change (os_walk "/tmp/demo" demo_tree)
      with [("/tmp/demo", ["bin"], @nil string); ("/tmp/demo/bin", [], ["run.sh"])].
    right. left.
  - intros r Hr. by apply elem_of_nil in Hr.
  - right. exists "run.sh". repeat split. left.
Qed.

Lemma C4_denied_path_kept_witness :
  ∃ snap : gmap string (option info),
    get_data_information denied_os "/tmp/demo/bin/run.sh" = Ok None ∧
    snap !! "/tmp/demo/bin/run.sh" = Some None ∧
    description (snap !!! "/tmp/demo/bin/run.sh")
    = {| group := Some "-"; mode := Some "-"; type := Some "-";
         user := Some "-"; prot := Some "-" |}.
Proof.
  eexists.
  apply (C4_denied_path_kept denied_os "/tmp/demo" demo_tree []).
  - vm_compute. reflexivity.
  - apply demo_run_sh_recorded.
  - vm_compute. reflexivity.
Defined.

(** ** The directory test *)

Lemma visit_recorded_key os ignore_folders flag d y d' key :
  visit os ignore_folders (flag, d) y = Ok (false, d') →
  remove_ending_bar_chars y.1.1 = Ok key →
  is_Some (d' !! key).
Proof.
  intros H Hkey.
  apply visit_ok_inv in H as (key' & aux & Hkey' & _ & _ & i & Hi & Hfiles).
  rewrite Hkey in Hkey'. injection Hkey' as <-.
  exists i. eapply files_stable; [done | done |]. by rewrite lookup_insert_eq.
Qed.


(** The rule [a/b] skips both [a/b/c] and [a/c/b] below the root [srv]. *)
Example rule_ab_excludes_both :
  scan_ignored (Counter (split "srv/a/b/c")) false ["a/b"] = Ok true ∧
  scan_ignored (Counter (split "srv/a/c/b")) false ["a/b"] = Ok true ∧
  ∃ snap, get_current_items abc_os "srv" abc_tree ["a/b"] = Ok snap ∧
          snap !! "srv/a/b" = None ∧
          snap !! "srv/a/b/c" = None ∧
          snap !! "srv/a/c/b" = None ∧
          is_Some (snap !! "srv") ∧
          is_Some (snap !! "srv/a") ∧
          is_Some (snap !! "srv/a/c").
Proof.
  split; [by vm_compute |]. split; [by vm_compute |].
  eexists. split; [by vm_compute |].
  repeat split; try (by vm_compute); eexists; by vm_compute.
Qed.


(** ** Normalisation of directory paths *)

Section normalisation.
Implicit Types p : string.

Lemma last_char_snoc p c : last_char (p +:+ String c EmptyString) = Some c.
Proof.
  induction p as [|a p IH]; [done |].
  rewrite string_app_cons. simpl. rewrite IH.
  destruct p; reflexivity.
Qed.

Lemma drop_last_snoc p c : drop_last (p +:+ String c EmptyString) = p.
Proof.
  induction p as [|a p IH]; [done |].
  rewrite string_app_cons. simpl. rewrite IH.
  destruct p; reflexivity.
Qed.

Lemma last_char_None p : last_char p = None → p = EmptyString.
Proof.
  induction p as [|a p IH]; [done |]. simpl.
  destruct p as [|b p]; [done |]. intros H. by apply IH in H.
Qed.

Lemma remove_ending_with_separator p :
  remove_ending_bar_chars (p +:+ "/") = Ok p.
Proof.
  unfold remove_ending_bar_chars.
  by rewrite (last_char_snoc p "/"), (drop_last_snoc p "/").
Qed.

Lemma remove_ending_without_separator p :
  p ≠ EmptyString → last_char p ≠ Some slash → remove_ending_bar_chars p = Ok p.
Proof.
  intros Hne Hlast. unfold remove_ending_bar_chars.
  destruct (last_char p) as [c|] eqn:E.
  - destruct (Ascii.eqb_spec c slash) as [->|]; [done | done].
  - by apply last_char_None in E.
Qed.
End normalisation.

(** C8 (as stated, refuted). The key of the directory [/tmp/demo]
    (walked from the root [/tmp/demo/]) keeps its leading separator: the
    snapshot has the key [/tmp/demo] and no key [tmp/demo]. *)
Lemma C8_key_keeps_leading_separator :
  remove_ending_bar_chars "/tmp/demo/" = Ok "/tmp/demo" ∧
  ∃ snap, get_current_items demo_os "/tmp/demo/" demo_tree [] = Ok snap ∧
          is_Some (snap !! "/tmp/demo") ∧
          snap !! "tmp/demo" = None.
Proof.
  split; [by vm_compute |]. eexists. split; [by vm_compute |].
  split; [eexists |]; by vm_compute.
Qed.

(** C8 (amended). For every directory path of the walk, one trailing
    separator is stripped before the path is used as a key of the mapping,
    and one leading separator is stripped in addition only for the
    comparison against the ignore rules: the key keeps its leading
    separator. A path with a trailing separator and the same path without
    it take the same step: same key, same decision, same dict. *)
Theorem C8_trailing_separator_only os ignore_folders flag d p dirnames filenames :
  p ≠ EmptyString → last_char p ≠ Some slash →
  remove_ending_bar_chars (p +:+ "/") = Ok p ∧
  remove_ending_bar_chars p = Ok p ∧
  visit os ignore_folders (flag, d) (p +:+ "/", dirnames, filenames)
  = visit os ignore_folders (flag, d) (p, dirnames, filenames) ∧
  ∀ b d',
    visit os ignore_folders (flag, d) (p, dirnames, filenames) = Ok (b, d') →
    ∃ aux, remove_initial_bar_chars p = Ok aux ∧
           scan_ignored (Counter (split aux)) flag ignore_folders = Ok b ∧
           (b = false → is_Some (d' !! p)).
Proof.
  intros Hne Hlast.
  pose proof (remove_ending_with_separator p) as H1.
  pose proof (remove_ending_without_separator p Hne Hlast) as H2.
  repeat split; try done.
  - unfold visit. by rewrite H1, H2.
  - intros b d' Hstep. pose proof Hstep as Hinv.
    apply visit_ok_inv in Hinv as (key & aux & Hkey & Haux & Hscan & _).
    simpl in Hkey. rewrite H2 in Hkey. injection Hkey as <-.
    exists aux. repeat split; try done.
    intros ->. by eapply visit_recorded_key.
Qed.

Lemma C8_trailing_separator_only_witness :
  remove_ending_bar_chars ("/a/b" +:+ "/") = Ok "/a/b" ∧
  remove_ending_bar_chars "/a/b" = Ok "/a/b" ∧
  visit demo_os ["/a"] (false, ∅) ("/a/b" +:+ "/", [], [])
  = visit demo_os ["/a"] (false, ∅) ("/a/b", [], []) ∧
  ∀ b d',
    visit demo_os ["/a"] (false, ∅) ("/a/b", [], []) = Ok (b, d') →
    ∃ aux, remove_initial_bar_chars "/a/b" = Ok aux ∧
           scan_ignored (Counter (split aux)) false ["/a"] = Ok b ∧
           (b = false → is_Some (d' !! "/a/b")).
Proof.
  apply (C8_trailing_separator_only demo_os ["/a"] false ∅ "/a/b" [] []).
  - vm_compute. discriminate.
  - vm_compute. discriminate.
Defined.

(** ** Paths and their components *)

Section components.
Implicit Types a b s x : string.

Lemma split_not_nil s : split s ≠ [].
Proof.
  destruct s as [|c s]; simpl; [done |].
  destruct (Ascii.eqb c slash); [done |]. by destruct (split s).
Qed.

(** Splitting distributes over a separator. *)
Lemma split_app_slash a b : split (a +:+ "/" +:+ b) = split a ++ split b.
Proof.
  induction a as [|c a IH]; [done |].
  rewrite string_app_cons. simpl. rewrite IH.
  destruct (Ascii.eqb c slash); [done |].
  pose proof (split_not_nil a). by destruct (split a).
Qed.

Lemma no_slash_split s : no_slash s = true → split s = [s].
Proof.
  induction s as [|c s IH]; [done |]. unfold no_slash. simpl.
  intros [Hc Hs]%andb_true_iff. apply negb_true_iff in Hc. rewrite Hc.
  by rewrite (IH Hs).
Qed.

Lemma no_slash_app_slash a b : no_slash (a +:+ "/" +:+ b) = false.
Proof.
  induction a as [|c a IH]; [done |].
  rewrite string_app_cons. unfold no_slash in *. simpl. rewrite IH.
  apply andb_false_r.
Qed.

Lemma remove_initial_app s x aux :
  remove_initial_bar_chars s = Ok aux →
  remove_initial_bar_chars (s +:+ x) = Ok (aux +:+ x).
Proof.
  destruct s as [|c s]; [done |]. rewrite string_app_cons. simpl.
  destruct (Ascii.eqb c slash); by intros [= <-].
Qed.

(** Two ways to cut a path before a separator, the second one before a
    name: the cuts agree, or the second lies below the first. *)
Lemma slash_decompose a x b f :
  no_slash f = true →
  a +:+ "/" +:+ x = b +:+ "/" +:+ f →
  (a = b ∧ x = f) ∨ ∃ x', b = a +:+ "/" +:+ x' ∧ x = x' +:+ "/" +:+ f.
Proof.
  intros Hf. revert b. induction a as [|c a IH]; intros b H.
  - destruct b as [|c b].
    + rewrite !string_app_nil_l, !string_app_cons, !string_app_nil_l in H.
      injection H as ->. by left.
    + rewrite string_app_nil_l, !string_app_cons, string_app_nil_l in H.
      injection H as <- ->. right. exists b. split; [| done].
      by rewrite string_app_nil_l, string_app_cons, string_app_nil_l.
  - destruct b as [|c' b]; rewrite !string_app_cons in H.
    + rewrite !string_app_nil_l in H. injection H as -> <-.
      destruct (eq_true_false_abs _ Hf (no_slash_app_slash a x)).
    + injection H as -> H. apply IH in H as [[-> ->] | (x' & -> & ->)].
      * by left.
      * right. by exists x'.
Qed.

Lemma last_char_app a b : b ≠ EmptyString → last_char (a +:+ b) = last_char b.
Proof.
  intros Hb. induction a as [|c a IH]; [done |].
  rewrite string_app_cons. simpl. rewrite IH.
  destruct (a +:+ b) eqn:E; [| done].
  destruct a, b; done.
Qed.

Lemma last_char_no_slash s : no_slash s = true → last_char s ≠ Some slash.
Proof.
  induction s as [|c s IH]; [done |]. unfold no_slash. simpl.
  intros [Hc Hs]%andb_true_iff. destruct s as [|c' s].
  - intros [= ->]. by rewrite Ascii.eqb_refl in Hc.
  - by apply IH.
Qed.

Lemma drop_last_last s c : last_char s = Some c → s = drop_last s +:+ String c EmptyString.
Proof.
  induction s as [|a s IH]; [done |]. simpl.
  destruct s as [|b s]; [by intros [= ->] |].
  intros H. rewrite string_app_cons. f_equal. by apply IH.
Qed.

Lemma remove_ending_total s : s ≠ EmptyString → ∃ key, remove_ending_bar_chars s = Ok key.
Proof.
  intros Hs. unfold remove_ending_bar_chars.
  destruct (last_char s) as [c|] eqn:E.
  - destruct (Ascii.eqb c slash); eauto.
  - by apply last_char_None in E.
Qed.

(** Entering the entry [n] of a directory appends [/n] to its key, and
    the result is its own key. *)
Lemma path_join_key top key n :
  remove_ending_bar_chars top = Ok key → name_ok n = true →
  path_join top n = key +:+ "/" +:+ n ∧
  remove_ending_bar_chars (key +:+ "/" +:+ n) = Ok (key +:+ "/" +:+ n).
Proof.
  intros Hkey [Hne Hns]%andb_true_iff.
  apply negb_true_iff, String.eqb_neq in Hne. split.
  - unfold path_join. unfold remove_ending_bar_chars in Hkey.
    destruct n as [|c n]; [done |].
    assert (Hc : Ascii.eqb c slash = false).
    { unfold no_slash in Hns. simpl in Hns.
      apply andb_true_iff in Hns as [Hc _]. by apply negb_true_iff in Hc. }
    rewrite Hc. destruct (last_char top) as [d|] eqn:E; [| done].
    destruct (Ascii.eqb_spec d slash) as [->|Hd].
    + injection Hkey as <-. rewrite (drop_last_last _ _ E) at 1.
      by rewrite string_app_assoc.
    + by injection Hkey as <-.
  - apply remove_ending_without_separator.
    + destruct key; done.
    + rewrite <- string_app_assoc, last_char_app by done.
      by apply last_char_no_slash.
Qed.

Lemma below_snoc key names f :
  below key (names ++ [f]) = below key names +:+ "/" +:+ f.
Proof. unfold below. by rewrite foldl_app. Qed.

Lemma below_cons key n names :
  below key (n :: names) = below (key +:+ "/" +:+ n) names.
Proof. reflexivity. Qed.

End components.

(** ** The shape of the walk *)

Section tree.
Implicit Types t : wtree.

(** Induction on what the walk finds, with the hypothesis for every
    subdirectory. *)
Lemma wtree_induction (P : wtree → Prop) :
  P WSkip →
  (∀ subdirs files, Forall (λ entry, P entry.2) subdirs → P (WDir subdirs files)) →
  ∀ t, P t.
Proof.
  intros Hskip Hdir. fix IH 1. intros [subdirs files|]; [| exact Hskip].
  apply Hdir. induction subdirs as [|[n sub] rest IHrest]; constructor.
  - apply IH.
  - exact IHrest.
Qed.

Lemma elem_of_flat_map {A B} (f : A → list B) (l : list A) (y : B) :
  y ∈ flat_map f l ↔ ∃ x, x ∈ l ∧ y ∈ f x.
Proof.
  rewrite list_elem_of_In, in_flat_map. split.
  - intros (x & Hx & Hy). exists x. by rewrite !list_elem_of_In.
  - intros (x & Hx & Hy). exists x. by rewrite <- !list_elem_of_In.
Qed.

Lemma elem_of_map_fst {A B} (l : list (A * B)) (a : A) :
  a ∈ map fst l ↔ ∃ b, (a, b) ∈ l.
Proof.
  rewrite list_elem_of_In, in_map_iff. split.
  - intros ([a' b] & <- & Hin). exists b. by apply list_elem_of_In.
  - intros (b & Hin). exists (a, b). split; [done |]. by apply list_elem_of_In.
Qed.

Lemma NoDup_map_fst_agree {A B} (l : list (A * B)) a b1 b2 :
  NoDup (map fst l) → (a, b1) ∈ l → (a, b2) ∈ l → b1 = b2.
Proof.
  induction l as [|[a' b'] l IH]; simpl; intros Hnd H1 H2.
  - by apply elem_of_nil in H1.
  - apply NoDup_cons in Hnd as [Hnotin Hnd].
    apply elem_of_cons in H1 as [[= -> ->]|H1], H2 as [[= ->]|H2].
    + done.
    + destruct Hnotin. apply elem_of_map_fst. by exists b2.
    + subst. destruct Hnotin. apply elem_of_map_fst. by exists b1.
    + by apply IH.
Qed.

Lemma wf_tree_dir subdirs files :
  wf_tree (WDir subdirs files) = true →
  NoDup (map fst subdirs ++ files) ∧
  (∀ n, n ∈ map fst subdirs ++ files → name_ok n = true) ∧
  (∀ entry, entry ∈ subdirs → wf_tree entry.2 = true).
Proof.
  simpl. intros [[H1 H2]%andb_true_iff H3]%andb_true_iff.
  apply bool_decide_eq_true in H1. rewrite forallb_forall in H2, H3.
  repeat split; [done | |].
  - intros n Hn. by apply H2, list_elem_of_In.
  - intros e He. by apply H3, list_elem_of_In.
Qed.

(** Every directory the walk yields is reached through a list of entry
    names, and its key is the key of the top followed by these names. *)
Lemma walk_dir_names t top key y :
  wf_tree t = true →
  remove_ending_bar_chars top = Ok key →
  y ∈ walk_dir top t →
  ∃ names, (names, y.1.2, y.2) ∈ walk_names t ∧
           remove_ending_bar_chars y.1.1 = Ok (below key names).
Proof.
  revert top key y. induction t as [|subdirs files IH] using wtree_induction;
    intros top key y Hwf Hkey Hy.
  - by apply elem_of_nil in Hy.
  - apply wf_tree_dir in Hwf as (_ & Hnames & Hsubs).
    simpl in Hy. apply elem_of_cons in Hy as [->|Hy].
    + exists []. split; [left | done].
    + apply elem_of_flat_map in Hy as ([n sub] & Hin & Hy). simpl in Hy.
      assert (Hn : name_ok n = true).
      { apply Hnames, elem_of_app. left. apply elem_of_map_fst. by exists sub. }
      destruct (path_join_key _ _ _ Hkey Hn) as [Hjoin Hkey'].
      rewrite Hjoin in Hy. rewrite Forall_forall in IH.
      destruct (IH _ Hin _ _ _ (Hsubs _ Hin) Hkey' Hy) as (names & Hnames' & Hk).
      exists (n :: names). split; [| done].
      simpl. right. apply elem_of_flat_map. exists (n, sub). split; [done |].
      simpl. apply list_elem_of_In, in_map_iff.
      exists (names, y.1.2, y.2). split; [done |]. by apply list_elem_of_In.
Qed.

(** In a well-formed tree, the names that lead to a directory and the
    names of its files have no separator, and no name of its listing is
    both a subdirectory and a file. *)
Lemma walk_names_wf t names dirnames filenames :
  wf_tree t = true →
  (names, dirnames, filenames) ∈ walk_names t →
  Forall (λ n, no_slash n = true) names ∧
  (∀ f, f ∈ filenames → no_slash f = true) ∧
  (∀ f, f ∈ dirnames → f ∉ filenames).
Proof.
  revert names. induction t as [|subdirs files IH] using wtree_induction;
    intros names Hwf Hy.
  - by apply elem_of_nil in Hy.
  - pose proof Hwf as Hwf'.
    apply wf_tree_dir in Hwf' as (Hnd & Hnames & Hsubs).
    simpl in Hy. apply elem_of_cons in Hy as [[= -> -> ->]|Hy].
    + split; [constructor |]. split.
      * intros f Hf. assert (Hn : name_ok f = true).
        { apply Hnames, elem_of_app. by right. }
        by apply andb_true_iff in Hn as [_ ?].
      * apply NoDup_app in Hnd as (_ & Hdisj & _). exact Hdisj.
    + apply elem_of_flat_map in Hy as ([n sub] & Hin & Hy). simpl in Hy.
      apply list_elem_of_In, in_map_iff in Hy as ([[ns ds] fs] & [= <- <- <-] & Hy').
      apply list_elem_of_In in Hy'. rewrite Forall_forall in IH.
      destruct (IH _ Hin _ (Hsubs _ Hin) Hy') as (Hns & Hfs & Hdisj).
      split; [| done]. constructor; [| done].
      assert (Hn : name_ok n = true).
      { apply Hnames, elem_of_app. left. apply elem_of_map_fst. by exists sub. }
      by apply andb_true_iff in Hn as [_ ?].
Qed.

(** The last name that leads to a directory is a subdirectory name in
    the listing of the directory before it. *)
Lemma walk_names_parent t names f dirnames filenames dirnames' filenames' :
  wf_tree t = true →
  (names ++ [f], dirnames, filenames) ∈ walk_names t →
  (names, dirnames', filenames') ∈ walk_names t →
  f ∈ dirnames'.
Proof.
  revert names. induction t as [|subdirs files IH] using wtree_induction;
    intros names Hwf Hchild Hparent.
  - by apply elem_of_nil in Hchild.
  - pose proof Hwf as Hwf'.
    apply wf_tree_dir in Hwf' as (Hnd & _ & Hsubs).
    apply NoDup_app in Hnd as (Hnd & _ & _).
    simpl in Hchild, Hparent.
    apply elem_of_cons in Hchild as [Hchild|Hchild].
    { injection Hchild as Hc _ _. by destruct names. }
    apply elem_of_flat_map in Hchild as ([n sub] & Hin & Hchild). simpl in Hchild.
    apply list_elem_of_In, in_map_iff in Hchild
      as ([[ns ds] fs] & [= Hns <- <-] & Hchild').
    apply list_elem_of_In in Hchild'. simpl in Hns.
    apply elem_of_cons in Hparent as [[= -> -> ->]|Hparent].
    + simpl in Hns. injection Hns as <- _.
      apply elem_of_map_fst. by exists sub.
    + apply elem_of_flat_map in Hparent as ([n' sub'] & Hin' & Hparent).
      simpl in Hparent.
      apply list_elem_of_In, in_map_iff in Hparent
        as ([[ns' ds'] fs'] & [= <- <- <-] & Hparent').
      apply list_elem_of_In in Hparent'. simpl in Hns.
      injection Hns as -> ->.
      assert (sub' = sub) as -> by (by eapply NoDup_map_fst_agree).
      rewrite Forall_forall in IH.
      by apply (IH _ Hin _ (Hsubs _ Hin) Hchild' Hparent').
Qed.
End tree.

(** ** Excluded subtrees *)

Section subtree.
Implicit Types key aux rest : string.

Lemma below_length key names :
  (String.length key ≤ String.length (below key names))%nat.
Proof.
  induction names as [|n names IH] using rev_ind; [done |].
  rewrite below_snoc, !string_app_length. lia.
Qed.

(** Distinct lists of names lead to distinct paths. *)
Lemma below_inj key names1 names2 :
  Forall (λ n, no_slash n = true) names1 →
  Forall (λ n, no_slash n = true) names2 →
  below key names1 = below key names2 → names1 = names2.
Proof.
  revert names2. induction names1 as [|n l IH] using rev_ind; intros names2 H1 H2.
  - destruct names2 as [|m ms _] using rev_ind; [done |].
    rewrite below_snoc. simpl. intros H.
    apply (f_equal String.length) in H. rewrite !string_app_length in H.
    pose proof (below_length key ms). simpl in H. lia.
  - rewrite Forall_app, Forall_singleton in H1. destruct H1 as [Hl Hn].
    destruct names2 as [|m ms _] using rev_ind.
    + rewrite below_snoc. simpl. intros H.
      apply (f_equal String.length) in H. rewrite !string_app_length in H.
      pose proof (below_length key l). simpl in H. lia.
    + rewrite Forall_app, Forall_singleton in H2. destruct H2 as [Hms Hm].
      rewrite !below_snoc. intros H.
      destruct (slash_decompose _ _ _ _ Hm H) as [[H' ->] | (x' & _ & ->)].
      * f_equal. by apply IH.
      * destruct (eq_true_false_abs _ Hn (no_slash_app_slash x' m)).
Qed.

(** A rule that matches a path matches every path below it. *)
Lemma rule_matches_below r aux rest :
  rule_matches r aux → rule_matches r (aux +:+ "/" +:+ rest).
Proof.
  intros (r' & Hr' & Hm). exists r'. split; [done |].
  rewrite split_app_slash. by apply multiset_contained_app_r.
Qed.

Lemma rule_matches_below_key r key aux rest aux' :
  remove_initial_bar_chars key = Ok aux →
  remove_initial_bar_chars (key +:+ "/" +:+ rest) = Ok aux' →
  rule_matches r aux → rule_matches r aux'.
Proof.
  intros Haux Haux' Hm.
  rewrite (remove_initial_app _ ("/" +:+ rest) _ Haux) in Haux'.
  injection Haux' as <-. by apply rule_matches_below.
Qed.

(** The paths below a key, through entry names, have the key, a
    separator and more. *)
Lemma below_has_prefix key n names :
  ∃ rest, below key (n :: names) = key +:+ "/" +:+ rest.
Proof.
  revert n. induction names as [|m names IH] using rev_ind; intros n.
  - by exists n.
  - destruct (IH n) as [rest Hrest]. exists (rest +:+ "/" +:+ m).
    rewrite app_comm_cons, below_snoc, Hrest.
    by rewrite !string_app_assoc.
Qed.
End subtree.

(** C6. When an ignore rule matches a directory that the walk visits, the
    returned snapshot has no key for that directory and no key beneath it:
    neither the key of the directory, nor any key that continues it with a
    separator, which covers every directory and file reached from it
    through entry names. The tree is a real listing: names are distinct,
    not empty and without separator. *)
Theorem C6_excluded_subtree os path fs ignore_folders snap
    dirpath dirnames filenames key aux r :
  wf_tree fs = true →
  get_current_items os path fs ignore_folders = Ok snap →
  (dirpath, dirnames, filenames) ∈ os_walk path fs →
  remove_ending_bar_chars dirpath = Ok key →
  remove_initial_bar_chars key = Ok aux →
  r ∈ ignore_folders → rule_matches r aux →
  snap !! key = None ∧
  (∀ rest, snap !! (key +:+ "/" +:+ rest) = None) ∧
  (∀ n names, snap !! below key (n :: names) = None) ∧
  (∀ names f, snap !! (below key names +:+ "/" +:+ f) = None).
Proof.
  intros Hwf Hrun Hin Hkey Haux Hr Hm.
  assert (Hpath : path ≠ EmptyString) by (intros ->; by apply elem_of_nil in Hin).
  assert (Hwalk : os_walk path fs = walk_dir path fs) by (by destruct path).
  destruct (remove_ending_total _ Hpath) as [top Htop].
  rewrite Hwalk in Hin.
  destruct (walk_dir_names _ _ _ _ Hwf Htop Hin) as (namesD & HD & HkeyD).
  simpl in HD, HkeyD. rewrite Hkey in HkeyD. injection HkeyD as ->.
  destruct (walk_names_wf _ _ _ _ Hwf HD) as (HnsD & _ & _).
  (* a recorded path is the key of, or a file in, a directory no rule matches *)
  assert (Hnot : ∀ k, recorded ignore_folders (walk_dir path fs) k →
                 k ≠ below top namesD ∧
                 ∀ rest, k ≠ below top namesD +:+ "/" +:+ rest).
  { intros k (pE & dsE & fsE & keyE & auxE & HinE & HkeyE & HauxE & Hnone & Hk).
    destruct (walk_dir_names _ _ _ _ Hwf Htop HinE) as (namesE & HE & HkeyE').
    simpl in HE, HkeyE'. rewrite HkeyE in HkeyE'. injection HkeyE' as ->.
    destruct (walk_names_wf _ _ _ _ Hwf HE) as (HnsE & HfsE & HdisjE).
    destruct Hk as [-> | (f & Hf & -> & _)]; split.
    - intros Heq. rewrite Heq, Haux in HauxE. injection HauxE as <-.
      by destruct (Hnone r Hr).
    - intros rest Heq. rewrite Heq in HauxE.
      destruct (Hnone r Hr).
        exact (rule_matches_below_key _ _ _ _ _ Haux HauxE Hm).
    - intros Heq. rewrite <- below_snoc in Heq.
      assert (Hnames : namesE ++ [f] = namesD).
      { apply (below_inj top); [| done | done].
        rewrite Forall_app, Forall_singleton. split; [done | by apply HfsE]. }
      subst namesD. destruct (HdisjE f); [| done].
      by eapply walk_names_parent.
    - intros rest Heq. symmetry in Heq.
      destruct (slash_decompose _ _ _ _ (HfsE f Hf) Heq) as [[Heq' _] | (x' & Heq' & _)].
      + rewrite <- Heq', Haux in HauxE. injection HauxE as <-.
        by destruct (Hnone r Hr).
      + rewrite Heq' in HauxE.
        destruct (Hnone r Hr).
        exact (rule_matches_below_key _ _ _ _ _ Haux HauxE Hm). }
  assert (Hnone : ∀ k, (k = below top namesD ∨
                        ∃ rest, k = below top namesD +:+ "/" +:+ rest) →
                  snap !! k = None).
  { intros k Hk. destruct (snap !! k) as [v|] eqn:E; [exfalso | done].
    apply (get_current_items_spec _ _ _ _ _ _ _ Hrun) in E as [_ Hrec].
    rewrite Hwalk in Hrec. destruct (Hnot _ Hrec) as [Hne Hne'].
    destruct Hk as [->|[rest ->]]; [done | by destruct (Hne' rest)]. }
  repeat split.
  - apply Hnone. by left.
  - intros rest. apply Hnone. right. by exists rest.
  - intros n names. apply Hnone. right. apply below_has_prefix.
  - intros names f. apply Hnone. destruct names as [|n names].
    + right. by exists f.
    + right. destruct (below_has_prefix (below top namesD) n names) as [rest ->].
      exists (rest +:+ "/" +:+ f). by rewrite !string_app_assoc.
Qed.

Lemma rule_ab_matches : rule_matches "a/b" "srv/a/b".
Proof.
  exists "a/b". split; [reflexivity |].
  apply counter_sub_empty. vm_compute. reflexivity.
Qed.

Lemma C6_excluded_subtree_witness :
  ∃ snap : gmap string (option info),
    snap !! "srv/a/b" = None ∧
    (∀ rest, snap !! ("srv/a/b" +:+ "/" +:+ rest) = None) ∧
    (∀ n names, snap !! below "srv/a/b" (n :: names) = None) ∧
    (∀ names f, snap !! (below "srv/a/b" names +:+ "/" +:+ f) = None).
Proof.
  eexists.
  apply (C6_excluded_subtree abc_os "srv" abc_tree ["a/b"] _
           "srv/a/b" ["c"] [] "srv/a/b" "srv/a/b" "a/b").
  - vm_compute. reflexivity.
  - vm_compute. reflexivity.
  - change (os_walk "srv" abc_tree)
      with [("srv", ["a"], @nil string); ("srv/a", ["b"; "c"], []);
            ("srv/a/b", ["c"], []); ("srv/a/b/c", [], []);
            ("srv/a/c", ["b"], []); ("srv/a/c/b", [], [])].
    right. right. left.
  - vm_compute. reflexivity.
  - vm_compute. reflexivity.
  - left.
  - apply rule_ab_matches.
Defined.

(** * Further properties of the script *)

(** ** Mode bits and their renderings *)

Lemma filemode_slot_mask mask m items :
  Forall (λ kv, Z.land mask kv.1 = kv.1) items →
  filemode_slot m items = filemode_slot (Z.land m mask) items.
Proof.
  induction 1 as [|[k v] rest Hk _ IH]; simpl; [done |].
  simpl in Hk. rewrite <- Z.land_assoc, Hk. by rewrite IH.
Qed.

(** The type character depends on the file type bits only, the nine other
    characters on the twelve permission bits only. *)
Lemma get_filemode_split m :
  get_filemode m
  = filemode_slot (S_IFMT m) (List.hd nil _filemode_list)
    +:+ str_join (map (filemode_slot (S_IMODE m)) (tail _filemode_list)).
Proof.
  unfold get_filemode.
  change _filemode_list with (List.hd nil _filemode_list :: tail _filemode_list) at 1.
  rewrite map_cons. unfold str_join at 1. rewrite foldr_cons. f_equal.
  - apply (filemode_slot_mask 61440). unfold _filemode_list. simpl.
    repeat constructor.
  - unfold str_join. f_equal. apply map_ext_in. intros items Hin.
    apply (filemode_slot_mask 4095).
    revert items Hin. apply List.Forall_forall.
    unfold _filemode_list. simpl. repeat constructor.
Qed.

Lemma string_one_char s : String.length s = 1%nat → ∃ c, s = String c EmptyString.
Proof. destruct s as [|c [|]]; try done. by exists c. Qed.

(** X1. The type character of a raw mode made of a file type and permission
    bits: [-] for a regular file, [d], [c], [b], [p] and [l] for a
    directory, a character device, a block device, a fifo and a link; a
    socket shows as [-], like a regular file, and so does a mode without
    type bits. *)
Theorem get_filemode_type_character perm :
  let type_char fmt := String.get 0 (get_filemode (Z.lor fmt (S_IMODE perm))) in
  type_char S_IFREG = Some "-"%char ∧
  type_char S_IFDIR = Some "d"%char ∧
  type_char S_IFCHR = Some "c"%char ∧
  type_char S_IFBLK = Some "b"%char ∧
  type_char S_IFIFO = Some "p"%char ∧
  type_char S_IFLNK = Some "l"%char ∧
  type_char S_IFSOCK = Some "-"%char ∧
  type_char 0 = Some "-"%char.
Proof.
  generalize (S_IMODE_range perm). generalize (S_IMODE perm). intros n Hn.
  pose (P := λ n : Z,
    forallb (λ tc : Z * ascii,
               bool_decide (String.get 0 (get_filemode (Z.lor tc.1 n)) = Some tc.2))
      [(S_IFREG, "-"%char); (S_IFDIR, "d"%char); (S_IFCHR, "c"%char);
       (S_IFBLK, "b"%char); (S_IFIFO, "p"%char); (S_IFLNK, "l"%char);
       (S_IFSOCK, "-"%char); (0, "-"%char)]).
  assert (HP : P n = true).
  { apply forall_perm_bits; [| done]. vm_compute. reflexivity. }
  unfold P in HP. simpl in HP.
  repeat (apply andb_true_iff in HP as [?%bool_decide_eq_true HP]).
  cbv zeta. repeat split; done.
Qed.

(** X2. The symbolic string determines the twelve permission bits: reading
    its nine permission characters back through the tables gives
    [S_IMODE] of the mode, so two modes with the same string have the same
    permission bits. *)
Theorem get_filemode_permission_bits m :
  filemode_bits (get_filemode m) = S_IMODE m ∧
  ∀ m', get_filemode m' = get_filemode m → S_IMODE m' = S_IMODE m.
Proof.
  assert (Hbits : ∀ m, filemode_bits (get_filemode m) = S_IMODE m).
  { clear m. intros m. rewrite get_filemode_split.
    destruct (string_one_char (filemode_slot (S_IFMT m) (List.hd nil _filemode_list)))
      as [c ->].
    { apply filemode_slot_length. unfold _filemode_list. simpl. repeat constructor. }
    rewrite string_app_cons, string_app_nil_l. unfold filemode_bits.
    generalize (S_IMODE_range m). generalize (S_IMODE m). intros n Hn.
    pose (P := λ n : Z,
      filemode_bits_from (tail _filemode_list)
        (str_join (map (filemode_slot n) (tail _filemode_list))) =? n).
    assert (HP : P n = true).
    { apply forall_perm_bits; [| done]. vm_compute. reflexivity. }
    by apply Z.eqb_eq. }
  split; [done |]. intros m' Heq. by rewrite <- !Hbits, Heq.
Qed.

(** X3. The octal field denotes the nine low permission bits: the setuid,
    setgid and sticky bits do not change the number it stands for. *)
Theorem mode_field_value st_mode :
  octal_value (mode_field st_mode) = Z.land st_mode 511.
Proof.
  replace (Z.land st_mode 511) with (Z.land (S_IMODE st_mode) 511)
    by (unfold S_IMODE; by rewrite <- Z.land_assoc).
  unfold mode_field. generalize (S_IMODE_range st_mode).
  generalize (S_IMODE st_mode). intros n Hn.
  pose (P := λ n : Z,
    octal_value (let mode_str := remove_char "o" (oct n) in
                 if (3 <? String.length mode_str)%nat
                 then last_chars 3 mode_str else mode_str) =? Z.land n 511).
  assert (HP : P n = true).
  { apply forall_perm_bits; [| done]. vm_compute. reflexivity. }
  by apply Z.eqb_eq.
Qed.

(** X4. The two descriptions of the kind agree: [os.path.isdir] and the bit
    test of the type table read the same status, so an entry has the type
    [directory] exactly when its symbolic string starts with [d]. *)
Theorem directory_type_matches_symbolic os item i p :
  wf_os os →
  get_data_information os item = Ok (Some i) →
  prot i = Some p →
  type i = Some "directory" ↔ String.get 0 p = Some "d"%char.
Proof.
  intros Hwf. unfold get_data_information, isdir.
  destruct (os_stat os item) as [[| |]|st] eqn:Hst; try done.
  { by intros [= <-]. }
  destruct (getpwuid os (st_uid st)) as [u|]; [| done].
  destruct (getgrgid os (st_gid st)) as [g|]; [| done].
  simpl. intros [= <-]. simpl. intros [= <-].
  pose proof (stat_follow_object _ _ _ _ Hwf Hst) as Hobj.
  rewrite get_filemode_split.
  unfold is_object_type in Hobj. simpl in Hobj.
  repeat (apply orb_true_iff in Hobj as [Hobj|Hobj];
          [apply Z.eqb_eq in Hobj; rewrite Hobj; by vm_compute |]).
  done.
Qed.

Lemma demo_os_wf : wf_os demo_os.
Proof. apply (bool_decide_unpack _). vm_compute. exact I. Qed.

Lemma directory_type_matches_symbolic_witness :
  type {| group := Some "wazuh"; mode := Some "750"; type := Some "directory";
          user := Some "root"; prot := Some "drwxr-x---" |} = Some "directory"
  ↔ String.get 0 "drwxr-x---" = Some "d"%char.
Proof.
  apply (directory_type_matches_symbolic demo_os "/tmp/demo/bin").
  - apply demo_os_wf.
  - vm_compute. reflexivity.
  - reflexivity.
Defined.

(** ** The two path helpers, one after the other *)

(** X5. [remove_ending_bar_chars] removes exactly one trailing separator: it
    returns [r] for [r/], and a path without trailing separator as it is;
    nothing else, and it raises on the empty path only. *)
Theorem remove_ending_bar_chars_spec path :
  (remove_ending_bar_chars path = Raise IndexError ↔ path = EmptyString) ∧
  (∀ r, remove_ending_bar_chars path = Ok r ↔
        path = r +:+ "/" ∨
        (path = r ∧ path ≠ EmptyString ∧ last_char path ≠ Some slash)) ∧
  remove_ending_bar_chars (path +:+ "//") = Ok (path +:+ "/").
Proof.
  repeat split.
  - unfold remove_ending_bar_chars. destruct (last_char path) as [c|] eqn:E.
    + by destruct (Ascii.eqb c slash).
    + intros _. by apply last_char_None.
  - by intros ->.
  - unfold remove_ending_bar_chars. destruct (last_char path) as [c|] eqn:E; [| done].
    destruct (Ascii.eqb_spec c slash) as [->|Hc]; intros [= <-].
    + left. by apply drop_last_last.
    + right. repeat split; [by intros -> | congruence].
  - intros [-> | (-> & Hne & Hlast)].
    + apply remove_ending_with_separator.
    + by apply remove_ending_without_separator.
  - change (path +:+ "//") with (path +:+ "/" +:+ "/").
    rewrite <- string_app_assoc. apply remove_ending_with_separator.
Qed.

(** X6. Normalising a directory path (trailing separator, then leading
    separator) raises for two paths only: the empty path and [/]. *)
Theorem normalise_raises_iff dirpath :
  (let* key := remove_ending_bar_chars dirpath in remove_initial_bar_chars key)
  = Raise IndexError
  ↔ dirpath = EmptyString ∨ dirpath = "/".
Proof.
  split.
  - unfold remove_ending_bar_chars. destruct (last_char dirpath) as [c|] eqn:E.
    + destruct (Ascii.eqb_spec c slash) as [->|Hc]; simpl.
      * apply drop_last_last in E. destruct (drop_last dirpath) as [|a s] eqn:Ed.
        -- intros _. right. by rewrite E.
        -- simpl. by destruct (Ascii.eqb a slash).
      * destruct dirpath as [|a s]; [done |]. simpl.
        by destruct (Ascii.eqb a slash).
    + intros _. left. by apply last_char_None.
  - by intros [-> | ->].
Qed.

(** ** The snapshot as a whole *)

(** X7. The returned mapping holds exactly the recorded paths (the keys of
    the visited directories that no rule matches, and the kept files
    listed in them), each bound to what the extractor returns for it. *)
Theorem snapshot_is_recorded_paths os path fs ignore_folders snap :
  get_current_items os path fs ignore_folders = Ok snap →
  ∀ k v, snap !! k = Some v ↔
         get_data_information os k = Ok v ∧
         recorded ignore_folders (os_walk path fs) k.
Proof. intros Hrun k v. by apply get_current_items_spec. Qed.

Lemma snapshot_is_recorded_paths_witness :
  ∃ snap : gmap string (option info),
    ∀ k v, snap !! k = Some v ↔
           get_data_information demo_os k = Ok v ∧
           recorded ["/tmp/demo/bin"] (os_walk "/tmp/demo" demo_tree) k.
Proof.
  eexists.
  apply (snapshot_is_recorded_paths demo_os "/tmp/demo" demo_tree ["/tmp/demo/bin"]).
  vm_compute. reflexivity.
Defined.

Section rules.
Context (os : OS) (path : string) (fs : wtree).
Implicit Types rules : list string.

Lemma recorded_fewer_rules rules1 rules2 k :
  (∀ r, r ∈ rules1 → r ∈ rules2) →
  recorded rules2 (os_walk path fs) k → recorded rules1 (os_walk path fs) k.
Proof.
  intros Hsub (p & ds & fl & key & aux & Hin & Hkey & Haux & Hnone & Hk).
  exists p, ds, fl, key, aux. repeat split; try done.
  - intros r Hr. by apply Hnone, Hsub.
  - destruct Hk as [->|(f & Hf & -> & Hkept)]; [by left |].
    right. exists f. repeat split; try done.
    unfold file_kept in *. apply andb_true_iff in Hkept as [H1 H2].
    apply andb_true_iff. split; [done |].
    apply negb_true_iff, bool_decide_eq_false in H2.
    apply negb_true_iff, bool_decide_eq_false. intros Hr. by apply H2, Hsub.
Qed.

Lemma snapshot_fewer_rules rules1 rules2 snap1 snap2 :
  (∀ r, r ∈ rules1 → r ∈ rules2) →
  get_current_items os path fs rules1 = Ok snap1 →
  get_current_items os path fs rules2 = Ok snap2 →
  snap2 ⊆ snap1.
Proof.
  intros Hsub H1 H2. apply map_subseteq_spec. intros k v Hk.
  apply (get_current_items_spec _ _ _ _ _ _ _ H2) in Hk as [Hv Hrec].
  apply (get_current_items_spec _ _ _ _ _ _ _ H1). split; [done |].
  by eapply recorded_fewer_rules.
Qed.
End rules.

(** X8. Rules only ever remove entries: when the walk returns for a rule list
    and for a longer one, every entry of the second snapshot is an entry
    of the first, with the same record. *)
Theorem more_rules_smaller_snapshot os path fs rules1 rules2 snap1 snap2 :
  (∀ r, r ∈ rules1 → r ∈ rules2) →
  get_current_items os path fs rules1 = Ok snap1 →
  get_current_items os path fs rules2 = Ok snap2 →
  snap2 ⊆ snap1.
Proof. apply snapshot_fewer_rules. Qed.

Lemma more_rules_smaller_snapshot_witness :
  ∃ snap1 snap2 : gmap string (option info),
    get_current_items demo_os "/tmp/demo" demo_tree ["/x"] = Ok snap1 ∧
    get_current_items demo_os "/tmp/demo" demo_tree ["/tmp/demo/bin"; "/x"] = Ok snap2 ∧
    snap2 ⊆ snap1.
Proof.
  eexists _, _. split; [vm_compute; reflexivity |]. split; [vm_compute; reflexivity |].
  apply (more_rules_smaller_snapshot demo_os "/tmp/demo" demo_tree
           ["/x"] ["/tmp/demo/bin"; "/x"]).
  - intros r Hr. right. exact Hr.
  - vm_compute. reflexivity.
  - vm_compute. reflexivity.
Defined.

(** X9. The order of the rules and their repetitions do not matter: two rule
    lists with the same members give the same snapshot, when the walk
    returns for both. *)
Theorem same_rules_same_snapshot os path fs rules1 rules2 snap1 snap2 :
  (∀ r, r ∈ rules1 ↔ r ∈ rules2) →
  get_current_items os path fs rules1 = Ok snap1 →
  get_current_items os path fs rules2 = Ok snap2 →
  snap1 = snap2.
Proof.
  intros Hsame H1 H2. apply (anti_symm (⊆)).
  - eapply snapshot_fewer_rules; [| done | done]. intros r. apply Hsame.
  - eapply snapshot_fewer_rules; [| done | done]. intros r. apply Hsame.
Qed.

Lemma same_rules_same_snapshot_witness :
  ∃ snap1 snap2 : gmap string (option info),
    get_current_items abc_os "srv" abc_tree ["a/b"; "c/a"] = Ok snap1 ∧
    get_current_items abc_os "srv" abc_tree ["c/a"; "a/b"; "c/a"] = Ok snap2 ∧
    snap1 = snap2.
Proof.
  eexists _, _. split; [vm_compute; reflexivity |]. split; [vm_compute; reflexivity |].
  apply (same_rules_same_snapshot abc_os "srv" abc_tree
           ["a/b"; "c/a"] ["c/a"; "a/b"; "c/a"]).
  - intros r. rewrite !elem_of_cons, !elem_of_nil. tauto.
  - vm_compute. reflexivity.
  - vm_compute. reflexivity.
Defined.

(** ** Rules that make the walk raise *)

Lemma scan_ignored_empty_rule aux flag pre post :
  (∀ r, r ∈ pre → r ≠ EmptyString ∧ ¬ rule_matches r aux) →
  scan_ignored (Counter (split aux)) flag (pre ++ EmptyString :: post)
  = Raise IndexError.
Proof.
  revert flag. induction pre as [|r pre IH]; intros flag Hpre; [done |].
  destruct (Hpre r) as [Hne Hnm]; [left |].
  rewrite <- app_comm_cons. simpl.
  destruct (remove_initial_bar_chars r) as [r'|e] eqn:Hr'.
  - simpl. case_decide as He.
    + destruct Hnm. exists r'. split; [done |]. by apply counter_sub_empty.
    + apply IH. intros r0 Hr0. apply Hpre. by right.
  - destruct r as [|c s]; [done |]. simpl in Hr'.
    by destruct (Ascii.eqb c slash).
Qed.

(** X10. An empty rule (as [-i a,,b] or a trailing comma give) makes the walk
    raise [IndexError] at its first directory, unless a rule before it
    matches that directory. *)
Theorem empty_rule_raises os path subdirs files pre post key aux :
  remove_ending_bar_chars path = Ok key →
  remove_initial_bar_chars key = Ok aux →
  (∀ r, r ∈ pre → r ≠ EmptyString ∧ ¬ rule_matches r aux) →
  get_current_items os path (WDir subdirs files) (pre ++ EmptyString :: post)
  = Raise IndexError.
Proof.
  intros Hkey Haux Hpre. unfold get_current_items.
  assert (Hwalk : ∃ rest, os_walk path (WDir subdirs files)
                          = (path, map fst subdirs, files) :: rest).
  { destruct path; [done |]. simpl. eauto. }
  destruct Hwalk as [rest ->]. rewrite for_each_cons.
  unfold visit. rewrite Hkey. simpl. rewrite Haux. simpl.
  by rewrite scan_ignored_empty_rule.
Qed.

Lemma empty_rule_raises_witness :
  get_current_items demo_os "/tmp/demo" (WDir [("bin", WDir [] ["run.sh"])] [])
    (["/x"] ++ EmptyString :: ["/tmp/demo"])
  = Raise IndexError.
Proof.
  apply (empty_rule_raises demo_os "/tmp/demo" _ _ ["/x"] ["/tmp/demo"]
           "/tmp/demo" "tmp/demo").
  - vm_compute. reflexivity.
  - vm_compute. reflexivity.
  - intros r Hr. apply elem_of_cons in Hr as [->|Hr]; [| by apply elem_of_nil in Hr]. split; [done |].
    intros (r' & [= <-] & Hm). apply counter_sub_empty in Hm.
    vm_compute in Hm. discriminate.
Defined.

(** ** Keys of the snapshot and the tree *)

Section keys.
Implicit Types t : wtree.
Implicit Types names : list string.

Lemma occurrences_pos c (l : list string) : (0 < occurrences c l)%nat ↔ c ∈ l.
Proof.
  induction l as [|x l IH]; simpl.
  - split; [lia | by intros ?%elem_of_nil].
  - rewrite elem_of_cons. destruct (decide (x = c)) as [->|Hne].
    + split; [by left | lia].
    + rewrite IH. split; [by right | by intros [?|?]].
Qed.

(** A rule that ends with a separator has an empty component. *)
Lemma trailing_separator_component rule rule' :
  last_char rule = Some slash →
  remove_initial_bar_chars rule = Ok rule' →
  EmptyString ∈ split rule'.
Proof.
  intros Hlast Hr'.
  assert (Hcases : rule' = EmptyString ∨ last_char rule' = Some slash).
  { destruct rule as [|c s]; [done |]. simpl in Hr'.
    destruct (Ascii.eqb c slash); injection Hr' as <-; [| by right].
    destruct s as [|c' s]; [by left | by right]. }
  destruct Hcases as [->|Hl]; [left |].
  apply drop_last_last in Hl. rewrite Hl.
  change (drop_last rule' +:+ String slash EmptyString)
    with (drop_last rule' +:+ "/" +:+ EmptyString).
  rewrite split_app_slash, elem_of_app. right. left.
Qed.

(** The components of a directory below the top are those of the top
    followed by the entry names that lead to it. *)
Lemma components_below top top_aux names :
  remove_initial_bar_chars top = Ok top_aux →
  Forall (λ n, no_slash n = true) names →
  ∃ aux, remove_initial_bar_chars (below top names) = Ok aux ∧
         split aux = split top_aux ++ names.
Proof.
  intros Htop. induction names as [|n names IH] using rev_ind; intros Hns.
  - exists top_aux. by rewrite app_nil_r.
  - rewrite Forall_app, Forall_singleton in Hns. destruct Hns as [Hns Hn].
    destruct (IH Hns) as (aux & Haux & Hsplit).
    exists (aux +:+ "/" +:+ n). split.
    + rewrite below_snoc. by apply remove_initial_app.
    + by rewrite split_app_slash, Hsplit, (no_slash_split n Hn), app_assoc.
Qed.

(** The names that lead to a visited directory are proper entry names. *)
Lemma walk_names_ok t names dirnames filenames :
  wf_tree t = true →
  (names, dirnames, filenames) ∈ walk_names t →
  Forall (λ n, name_ok n = true) names.
Proof.
  revert names. induction t as [|subdirs files IH] using wtree_induction;
    intros names Hwf Hy.
  - by apply elem_of_nil in Hy.
  - apply wf_tree_dir in Hwf as (_ & Hnames & Hsubs).
    simpl in Hy. apply elem_of_cons in Hy as [[= -> -> ->]|Hy]; [constructor |].
    apply elem_of_flat_map in Hy as ([n sub] & Hin & Hy). simpl in Hy.
    apply list_elem_of_In, in_map_iff in Hy as ([[ns ds] fl] & [= <- <- <-] & Hy').
    apply list_elem_of_In in Hy'. rewrite Forall_forall in IH.
    constructor; [| by apply (IH _ Hin _ (Hsubs _ Hin) Hy')].
    apply Hnames, elem_of_app. left. apply elem_of_map_fst. by exists sub.
Qed.

Lemma name_ok_not_empty n : name_ok n = true → n ≠ EmptyString.
Proof. by intros [Hn _]%andb_true_iff ->. Qed.

Lemma os_walk_walk_dir path fs y :
  y ∈ os_walk path fs → path ≠ EmptyString ∧ y ∈ walk_dir path fs.
Proof. destruct path; [by intros ?%elem_of_nil | done]. Qed.
End keys.

(** X11. A rule written with a trailing separator (as [/var/ossec/]) excludes
    no directory of a walk whose root has no empty component: only the
    leading separator of a rule is removed, so the rule keeps an empty
    component that no such directory has. *)
Theorem trailing_separator_rule_never_matches path fs rule
    dirpath dirnames filenames top top_aux key aux :
  wf_tree fs = true →
  (dirpath, dirnames, filenames) ∈ os_walk path fs →
  remove_ending_bar_chars path = Ok top →
  remove_initial_bar_chars top = Ok top_aux →
  EmptyString ∉ split top_aux →
  remove_ending_bar_chars dirpath = Ok key →
  remove_initial_bar_chars key = Ok aux →
  last_char rule = Some slash →
  ¬ rule_matches rule aux.
Proof.
  intros Hwf Hin Htop Htaux Hnoempty Hkey Haux Hlast (rule' & Hr' & Hm).
  apply os_walk_walk_dir in Hin as [_ Hin].
  destruct (walk_dir_names _ _ _ _ Hwf Htop Hin) as (names & Hnames & Hk).
  simpl in Hnames, Hk. rewrite Hkey in Hk. injection Hk as ->.
  pose proof (walk_names_ok _ _ _ _ Hwf Hnames) as Hok.
  destruct (components_below top top_aux names Htaux) as (aux' & Haux' & Hsplit).
  { eapply Forall_impl; [exact Hok |]. by intros n [_ ?]%andb_true_iff. }
  rewrite Haux in Haux'. injection Haux' as <-.
  pose proof (trailing_separator_component _ _ Hlast Hr') as Hempty.
  apply occurrences_pos in Hempty. specialize (Hm EmptyString).
  assert (Hin' : EmptyString ∈ split aux) by (apply occurrences_pos; lia).
  rewrite Hsplit, elem_of_app in Hin'. destruct Hin' as [?|Hin']; [done |].
  rewrite Forall_forall in Hok. by apply Hok, name_ok_not_empty in Hin'.
Qed.

Lemma trailing_separator_rule_never_matches_witness :
  ¬ rule_matches "/tmp/demo/bin/" "tmp/demo/bin".
Proof.
  apply (trailing_separator_rule_never_matches "/tmp/demo" demo_tree "/tmp/demo/bin/"
           "/tmp/demo/bin" [] ["run.sh"] "/tmp/demo" "tmp/demo" "/tmp/demo/bin").
  - vm_compute. reflexivity.
  - change (os_walk "/tmp/demo" demo_tree)
      with [("/tmp/demo", ["bin"], @nil string); ("/tmp/demo/bin", [], ["run.sh"])].
    right. left.
  - vm_compute. reflexivity.
  - vm_compute. reflexivity.
  - change (split "tmp/demo") with ["tmp"; "demo"].
    rewrite !elem_of_cons, elem_of_nil. intros [H|[H|H]]; [discriminate.. | done].
  - vm_compute. reflexivity.
  - vm_compute. reflexivity.
  - vm_compute. reflexivity.
Defined.

(** X12. Every key of the snapshot is the root path without its trailing
    separator, or continues it with a separator: nothing outside the root
    is recorded. *)
Theorem snapshot_keys_below_root os path fs ignore_folders snap top k v :
  wf_tree fs = true →
  get_current_items os path fs ignore_folders = Ok snap →
  remove_ending_bar_chars path = Ok top →
  snap !! k = Some v →
  k = top ∨ ∃ rest, k = top +:+ "/" +:+ rest.
Proof.
  intros Hwf Hrun Htop Hk.
  apply (get_current_items_spec _ _ _ _ _ _ _ Hrun) in Hk as [_ Hrec].
  destruct Hrec as (p & ds & fl & key & aux & Hin & Hkey & _ & _ & Hk).
  apply os_walk_walk_dir in Hin as [_ Hin].
  destruct (walk_dir_names _ _ _ _ Hwf Htop Hin) as (names & _ & Hk').
  simpl in Hk'. rewrite Hkey in Hk'. injection Hk' as ->.
  assert (Hprefix : ∀ x, below top names = top ∨
                         ∃ rest, below top names +:+ x = top +:+ "/" +:+ rest +:+ x).
  { intros x. destruct names as [|n names]; [by left |]. right.
    destruct (below_has_prefix top n names) as [rest ->]. exists rest.
    by rewrite !string_app_assoc. }
  destruct Hk as [->|(f & _ & -> & _)].
  - destruct (Hprefix EmptyString) as [?|[rest Hrest]]; [by left |].
    right. exists rest. by rewrite !string_app_nil_r in Hrest.
  - right. destruct (Hprefix ("/" +:+ f)) as [->|[rest ->]].
    + by exists f.
    + exists (rest +:+ "/" +:+ f). done.
Qed.

Lemma snapshot_keys_below_root_witness :
  "/tmp/demo/bin/run.sh" = "/tmp/demo" ∨
  ∃ rest, "/tmp/demo/bin/run.sh" = "/tmp/demo" +:+ "/" +:+ rest.
Proof.
  eapply (snapshot_keys_below_root demo_os "/tmp/demo/" demo_tree []
            _ "/tmp/demo" "/tmp/demo/bin/run.sh" _).
  - vm_compute. reflexivity.
  - vm_compute. reflexivity.
  - vm_compute. reflexivity.
  - vm_compute. reflexivity.
Defined.

(** ** Files that are filtered out, and walks without rules *)

(** X13. A file that fails the file test (its path ends with [.pyc], or is
    itself one of the rules) has no entry in the snapshot. *)
Theorem filtered_file_has_no_entry os path fs ignore_folders snap
    dirpath dirnames filenames key f :
  wf_tree fs = true →
  get_current_items os path fs ignore_folders = Ok snap →
  (dirpath, dirnames, filenames) ∈ os_walk path fs →
  remove_ending_bar_chars dirpath = Ok key →
  f ∈ filenames →
  file_kept ignore_folders (key +:+ "/" +:+ f) = false →
  snap !! (key +:+ "/" +:+ f) = None.
Proof.
  intros Hwf Hrun Hin Hkey Hf Hkept.
  destruct (snap !! _) as [v|] eqn:E; [exfalso | done].
  apply (get_current_items_spec _ _ _ _ _ _ _ Hrun) in E as [_ Hrec].
  destruct Hrec as (pE & dsE & flE & keyE & auxE & HinE & HkeyE & _ & _ & Hk).
  apply os_walk_walk_dir in Hin as [Hpath Hin].
  apply os_walk_walk_dir in HinE as [_ HinE].
  destruct (remove_ending_total _ Hpath) as [top Htop].
  destruct (walk_dir_names _ _ _ _ Hwf Htop Hin) as (names & Hnames & Hk').
  simpl in Hnames, Hk'. rewrite Hkey in Hk'. injection Hk' as ->.
  destruct (walk_dir_names _ _ _ _ Hwf Htop HinE) as (namesE & HnamesE & HkE).
  simpl in HnamesE, HkE. rewrite HkeyE in HkE. injection HkE as ->.
  destruct (walk_names_wf _ _ _ _ Hwf Hnames) as (Hns & Hfl & Hdisj).
  destruct (walk_names_wf _ _ _ _ Hwf HnamesE) as (HnsE & _ & _).
  destruct Hk as [Heq | (f' & _ & _ & Hkept')]; [| congruence].
  rewrite <- below_snoc in Heq.
  assert (Hsame : names ++ [f] = namesE).
  { apply (below_inj top); [| done | done].
    rewrite Forall_app, Forall_singleton. split; [done | by apply Hfl]. }
  subst namesE. destruct (Hdisj f); [| done].
  by eapply walk_names_parent.
Qed.

Lemma filtered_file_has_no_entry_witness :
  ∃ snap : gmap string (option info),
    snap !! ("/tmp/demo/bin" +:+ "/" +:+ "run.sh") = None.
Proof.
  eexists.
  apply (filtered_file_has_no_entry demo_os "/tmp/demo" demo_tree
           ["/tmp/demo/bin/run.sh"] _ "/tmp/demo/bin" [] ["run.sh"]).
  - vm_compute. reflexivity.
  - vm_compute. reflexivity.
  - change (os_walk "/tmp/demo" demo_tree)
      with [("/tmp/demo", ["bin"], @nil string); ("/tmp/demo/bin", [], ["run.sh"])].
    right. left.
  - vm_compute. reflexivity.
  - left.
  - vm_compute. reflexivity.
Defined.

Lemma walk_visits_normalise os ignore_folders ys s s' y :
  for_each (visit os ignore_folders) s ys = Ok s' →
  y ∈ ys →
  ∃ key aux, remove_ending_bar_chars y.1.1 = Ok key ∧
             remove_initial_bar_chars key = Ok aux.
Proof.
  revert s. induction ys as [|y0 ys IH]; intros s Hrun Hy.
  - by apply elem_of_nil in Hy.
  - rewrite for_each_cons in Hrun. apply bind_ok in Hrun as ([f1 d1] & Hstep & Hrun).
    apply elem_of_cons in Hy as [->|Hy]; [| by eapply IH].
    destruct s as [f0 d0].
    apply visit_ok_inv in Hstep as (key & aux & Hkey & Haux & _).
    by exists key, aux.
Qed.

(** X14. With an empty rule list the walk leaves out nothing but [.pyc] files:
    every directory it visits has an entry under its key, and so has
    every file listed there whose path does not end with [.pyc]; each is
    bound to what the extractor returns for it. *)
Theorem no_rules_everything_recorded os path fs snap dirpath dirnames filenames :
  get_current_items os path fs [] = Ok snap →
  (dirpath, dirnames, filenames) ∈ os_walk path fs →
  ∃ key,
    remove_ending_bar_chars dirpath = Ok key ∧
    (∃ v, get_data_information os key = Ok v ∧ snap !! key = Some v) ∧
    ∀ f, f ∈ filenames →
         endswith (key +:+ "/" +:+ f) ".pyc" = false →
         ∃ v, get_data_information os (key +:+ "/" +:+ f) = Ok v ∧
              snap !! (key +:+ "/" +:+ f) = Some v.
Proof.
  intros Hrun Hin. pose proof Hrun as Hrun'. unfold get_current_items in Hrun'.
  apply bind_ok in Hrun' as ([flag d] & Hfold & _).
  destruct (walk_visits_normalise _ _ _ _ _ _ Hfold Hin) as (key & aux & Hkey & Haux).
  simpl in Hkey. exists key. split; [done |].
  assert (Hrec : ∀ k, (k = key ∨ ∃ f, f ∈ filenames ∧ k = key +:+ "/" +:+ f ∧
                                      file_kept [] k = true) →
                 ∃ v, get_data_information os k = Ok v ∧ snap !! k = Some v).
  { intros k Hk.
    assert (Hr : recorded [] (os_walk path fs) k).
    { exists dirpath, dirnames, filenames, key, aux. repeat split; try done.
      intros r Hr. by apply elem_of_nil in Hr. }
    destruct (snap !! k) as [v|] eqn:E.
    - exists v. split; [| done].
      by apply (get_current_items_spec _ _ _ _ _ _ _ Hrun) in E as [? _].
    - destruct (walk_complete _ _ _ _ _ _ _ _ Hfold (λ _, eq_refl) Hr) as (v & Hv & Hd).
      assert (snap !! k = Some v) as Hs.
      { by apply (get_current_items_spec _ _ _ _ _ _ _ Hrun). }
      congruence. }
  split.
  - apply Hrec. by left.
  - intros f Hf Hpyc. apply Hrec. right. exists f. repeat split; try done.
    unfold file_kept. rewrite Hpyc. reflexivity.
Qed.

Lemma no_rules_everything_recorded_witness :
  ∃ (snap : gmap string (option info)) key,
    remove_ending_bar_chars "/tmp/demo/bin" = Ok key ∧
    (∃ v, get_data_information demo_os key = Ok v ∧ snap !! key = Some v) ∧
    ∀ f, f ∈ ["run.sh"] →
         endswith (key +:+ "/" +:+ f) ".pyc" = false →
         ∃ v, get_data_information demo_os (key +:+ "/" +:+ f) = Ok v ∧
              snap !! (key +:+ "/" +:+ f) = Some v.
Proof.
  eexists.
  apply (no_rules_everything_recorded demo_os "/tmp/demo" demo_tree _
           "/tmp/demo/bin" [] ["run.sh"]).
  - vm_compute. reflexivity.
  - change (os_walk "/tmp/demo" demo_tree)
      with [("/tmp/demo", ["bin"], @nil string); ("/tmp/demo/bin", [], ["run.sh"])].
    right. left.
Defined.

(** ** One failure stops the walk *)

(** X15. When the extractor raises for one recorded path (its owner or group
    has no name), the walk returns no snapshot at all: it raises, and the
    entries gathered before are lost. *)
Theorem extractor_failure_aborts_walk os path fs ignore_folders k e :
  recorded ignore_folders (os_walk path fs) k →
  get_data_information os k = Raise e →
  ∃ e', get_current_items os path fs ignore_folders = Raise e'.
Proof.
  intros Hrec Hraise.
  destruct (get_current_items os path fs ignore_folders) as [snap|e'] eqn:Hrun;
    [exfalso | by exists e'].
  unfold get_current_items in Hrun.
  apply bind_ok in Hrun as ([flag d] & Hfold & _).
  destruct (walk_complete _ _ _ _ _ _ _ _ Hfold (λ _, eq_refl) Hrec) as (v & Hv & _).
  congruence.
Qed.

Lemma extractor_failure_aborts_walk_witness :
  ∃ e', get_current_items orphan_os "/tmp/demo" demo_tree [] = Raise e'.
Proof.
  apply (extractor_failure_aborts_walk orphan_os "/tmp/demo" demo_tree []
           "/tmp/demo/bin/run.sh" KeyError).
  - apply demo_run_sh_recorded.
  - vm_compute. reflexivity.
Defined.

(** ** Directories that the walk does not enter *)

Section skipped.
Implicit Types t : wtree.

Lemma lookup_entry_elem n subdirs sub :
  lookup_entry n subdirs = Some sub → (n, sub) ∈ subdirs.
Proof.
  induction subdirs as [|[m s] rest IH]; simpl; [done |].
  destruct (decide (m = n)) as [->|Hne].
  - intros [= ->]. left.
  - intros H. right. by apply IH.
Qed.

Lemma lookup_entry_unique n subdirs sub :
  NoDup (map fst subdirs) → (n, sub) ∈ subdirs → lookup_entry n subdirs = Some sub.
Proof.
  intros Hnd Hin. destruct (lookup_entry n subdirs) as [sub'|] eqn:E.
  - apply lookup_entry_elem in E. f_equal. by eapply NoDup_map_fst_agree.
  - exfalso. induction subdirs as [|[m s] rest IH]; [by apply elem_of_nil in Hin |].
    simpl in E. destruct (decide (m = n)) as [->|Hne]; [done |].
    apply elem_of_cons in Hin as [[= <- <-]|Hin]; [done |].
    apply NoDup_cons in Hnd as [_ Hnd]. by apply IH.
Qed.

(** A visited directory is the node of the tree that its names lead to. *)
Lemma walk_names_subtree t names dirnames filenames :
  wf_tree t = true →
  (names, dirnames, filenames) ∈ walk_names t →
  ∃ subdirs, subtree t names = Some (WDir subdirs filenames) ∧
             dirnames = map fst subdirs.
Proof.
  revert names. induction t as [|subdirs files IH] using wtree_induction;
    intros names Hwf Hy.
  - by apply elem_of_nil in Hy.
  - apply wf_tree_dir in Hwf as (Hnd & _ & Hsubs).
    apply NoDup_app in Hnd as (Hnd & _ & _).
    simpl in Hy. apply elem_of_cons in Hy as [[= -> -> ->]|Hy]; [by exists subdirs |].
    apply elem_of_flat_map in Hy as ([n sub] & Hin & Hy). simpl in Hy.
    apply list_elem_of_In, in_map_iff in Hy as ([[ns ds] fl] & [= <- <- <-] & Hy').
    apply list_elem_of_In in Hy'. rewrite Forall_forall in IH.
    destruct (IH _ Hin _ (Hsubs _ Hin) Hy') as (subdirs' & Hsub & Hds).
    exists subdirs'. split; [| done].
    simpl. by rewrite (lookup_entry_unique _ _ _ Hnd Hin).
Qed.

Lemma subtree_names_ok t names t' :
  wf_tree t = true → subtree t names = Some t' →
  Forall (λ n, no_slash n = true) names.
Proof.
  revert t. induction names as [|n names IH]; intros t Hwf Hsub; [constructor |].
  destruct t as [subdirs files|]; [| done]. simpl in Hsub.
  destruct (lookup_entry n subdirs) as [sub|] eqn:E; [| done].
  apply lookup_entry_elem in E.
  apply wf_tree_dir in Hwf as (_ & Hnames & Hsubs).
  constructor; [| by apply (IH sub), Hsub; apply (Hsubs _ E)].
  assert (Hn : name_ok n = true).
  { apply Hnames, elem_of_app. left. apply elem_of_map_fst. by exists sub. }
  by apply andb_true_iff in Hn as [_ ?].
Qed.

Lemma subtree_snoc t names f t' :
  subtree t (names ++ [f]) = Some t' →
  ∃ subdirs files, subtree t names = Some (WDir subdirs files) ∧
                   lookup_entry f subdirs = Some t'.
Proof.
  revert t. induction names as [|n names IH]; intros t; simpl.
  - destruct t as [subdirs files|]; [| done].
    destruct (lookup_entry f subdirs) as [sub|] eqn:E; [| done].
    intros [= ->]. by exists subdirs, files.
  - destruct t as [subdirs files|]; [| done].
    destruct (lookup_entry n subdirs) as [sub|]; [| done]. apply IH.
Qed.
End skipped.

(** X16. A directory that the walk lists but does not enter (a symbolic link
    to a directory, or a directory that cannot be listed) has no entry in
    the snapshot: it is neither a visited directory nor a file name. *)
Theorem skipped_directory_has_no_entry os path fs ignore_folders snap top names :
  wf_tree fs = true →
  get_current_items os path fs ignore_folders = Ok snap →
  remove_ending_bar_chars path = Ok top →
  subtree fs names = Some WSkip →
  snap !! below top names = None.
Proof.
  intros Hwf Hrun Htop Hskip.
  destruct (snap !! _) as [v|] eqn:E; [exfalso | done].
  apply (get_current_items_spec _ _ _ _ _ _ _ Hrun) in E as [_ Hrec].
  destruct Hrec as (pE & dsE & flE & keyE & auxE & HinE & HkeyE & _ & _ & Hk).
  apply os_walk_walk_dir in HinE as [_ HinE].
  destruct (walk_dir_names _ _ _ _ Hwf Htop HinE) as (namesE & HnamesE & HkE).
  simpl in HnamesE, HkE. rewrite HkeyE in HkE. injection HkE as ->.
  destruct (walk_names_wf _ _ _ _ Hwf HnamesE) as (HnsE & HflE & HdisjE).
  pose proof (subtree_names_ok _ _ _ Hwf Hskip) as Hns.
  destruct (walk_names_subtree _ _ _ _ Hwf HnamesE) as (subdirsE & HsubE & ->).
  destruct Hk as [Heq | (f & Hf & Heq & _)].
  - apply below_inj in Heq; [| done | done]. subst namesE. congruence.
  - rewrite <- below_snoc in Heq.
    assert (Hsame : names = namesE ++ [f]).
    { apply (below_inj top); [done | | done].
      rewrite Forall_app, Forall_singleton. split; [done | by apply HflE]. }
    subst names. apply subtree_snoc in Hskip as (subdirs & files & Hsub & Hentry).
    rewrite HsubE in Hsub. injection Hsub as <- <-.
    apply lookup_entry_elem in Hentry. destruct (HdisjE f); [| done].
    apply elem_of_map_fst. by exists WSkip.
Qed.

Lemma skipped_directory_has_no_entry_witness :
  ∃ snap : gmap string (option info),
    get_current_items link_os "/tmp/demo" link_tree [] = Ok snap ∧
    snap !! below "/tmp/demo" ["cur"] = None.
Proof.
  eexists. split; [vm_compute; reflexivity |].
  apply (skipped_directory_has_no_entry link_os "/tmp/demo" link_tree []).
  - vm_compute. reflexivity.
  - vm_compute. reflexivity.
  - vm_compute. reflexivity.
  - vm_compute. reflexivity.
Defined.

(** ** The entry point *)

Section entry_point.
Context (current_items : gmap string (option info)).

(** The loop never raises when the names are keys of the dict: [i] is the
    length of [description_list] at every turn, so [description_list[i]]
    is the description just appended. *)
Lemma main_loop names i description_list element_list :
  length description_list = i →
  (∀ n, n ∈ names → is_Some (current_items !! n)) →
  for_each (main_step current_items) (i, description_list, element_list) names
  = Ok ((i + length names)%nat,
        description_list ++ ((λ n, description (current_items !!! n)) <$> names),
        element_list
        ++ imap (λ j name, {| el_id := i + j; el_name := name;
                              el_description := description (current_items !!! name) |})
             names).
Proof.
  revert i description_list element_list.
  induction names as [|n names IH]; intros i dl el Hlen Hkeys.
  - simpl. by rewrite Nat.add_0_r, !app_nil_r.
  - rewrite for_each_cons. unfold main_step at 1.
    destruct (Hkeys n) as [entry Hentry]; [left |].
    rewrite Hentry. simpl.
    rewrite <- Hlen, list_lookup_middle by done. simpl.
    rewrite (IH (S (length dl))).
    + rewrite (lookup_total_correct _ _ _ Hentry), <- !app_assoc. simpl.
      rewrite Nat.add_0_r, Nat.add_succ_r. do 4 f_equal.
      apply imap_ext. intros j x _. simpl. f_equal. lia.
    + rewrite length_app. simpl. lia.
    + intros n' Hn'. apply Hkeys. by right.
Qed.
End entry_point.

Lemma sorted_keys_elem {A} (d : gmap string A) k :
  k ∈ sorted_keys d ↔ is_Some (d !! k).
Proof.
  unfold sorted_keys. rewrite merge_sort_Permutation, list_elem_of_fmap. split.
  - intros ([k' v] & -> & Hin). apply elem_of_map_to_list in Hin. by exists v.
  - intros [v Hv]. exists (k, v). split; [done |]. by apply elem_of_map_to_list.
Qed.


(** What [main] writes when it writes: one element per key of the
    snapshot, in the order of [sorted]. *)
Lemma main_written_inv os fs path arg data :
  main os fs path (Some arg) = Written data →
  ∃ snap,
    get_current_items os path fs (split_on "," arg) = Ok snap ∧
    data = imap (λ j name, {| el_id := j; el_name := name;
                              el_description := description (snap !!! name) |})
             (sorted_keys snap).
Proof.
  unfold main. destruct arg as [|c arg]; [done |].
  destruct (get_current_items os path fs _) as [snap|e]; [| done].
  simpl. rewrite (main_loop snap _ O [] []); [| done |].
  - simpl. intros [= <-]. by exists snap.
  - intros n Hn. by apply sorted_keys_elem.
Qed.




(** X19. No description of the written list mixes placeholders with values:
    its five fields are all [None] (the path had vanished), or all ['-']
    (its status could not be read), or all strings, with a type that is
    [directory] or [file], a ten-character symbolic string and an octal
    field made of octal digits. *)
Theorem main_descriptions_uniform os fs path arg data e :
  main os fs path (Some arg) = Written data →
  e ∈ data →
  el_description e = info_none ∨
  el_description e = {| group := Some "-"; mode := Some "-"; type := Some "-";
                        user := Some "-"; prot := Some "-" |} ∨
  ∃ g m t u p,
    el_description e = {| group := Some g; mode := Some m; type := Some t;
                          user := Some u; prot := Some p |} ∧
    (t = "directory" ∨ t = "file") ∧
    String.length p = 10%nat ∧
    string_forall is_octal_digit m = true.
Proof.
  intros (snap & Hrun & ->)%main_written_inv
         (j & name & -> & Hj)%elem_of_lookup_imap. simpl.
  assert (Hin : name ∈ sorted_keys snap) by (by eapply list_elem_of_lookup_2).
  apply sorted_keys_elem in Hin as [entry Hentry].
  rewrite (lookup_total_correct _ _ _ Hentry).
  apply (get_current_items_spec _ _ _ _ _ _ _ Hrun) in Hentry as [Hv _].
  unfold get_data_information in Hv.
  destruct (os_stat os name) as [[| |]|st].
  - injection Hv as <-. by left.
  - injection Hv as <-. right. by left.
  - injection Hv as <-. right. by left.
  - destruct (getpwuid os (st_uid st)) as [u|]; [| done].
    destruct (getgrgid os (st_gid st)) as [g|]; [| done].
    simpl in Hv. injection Hv as <-. right. right.
    eexists _, _, _, _, _. split; [reflexivity |]. repeat split.
    + destruct (isdir os name); [by left | by right].
    + apply get_filemode_length.
    + apply mode_field_shape.
Qed.

Lemma main_descriptions_uniform_witness :
  let dashes := {| group := Some "-"; mode := Some "-"; type := Some "-";
                   user := Some "-"; prot := Some "-" |} in
  dashes = info_none ∨ dashes = dashes ∨
  ∃ g m t u p,
    dashes = {| group := Some g; mode := Some m; type := Some t;
                user := Some u; prot := Some p |} ∧
    (t = "directory" ∨ t = "file") ∧
    String.length p = 10%nat ∧
    string_forall is_octal_digit m = true.
Proof.
  eapply (main_descriptions_uniform denied_os demo_tree "/tmp/demo" "/x" _
            {| el_id := 2; el_name := "/tmp/demo/bin/run.sh";
               el_description := {| group := Some "-"; mode := Some "-";
                                    type := Some "-"; user := Some "-";
                                    prot := Some "-" |} |}).
  - vm_compute. reflexivity.
  - right. right. left.
Defined.

(** ** Links that do not resolve *)

Lemma stat_follow_self_loop fs fuel path :
  fs !! path = Some (Link path) → stat_follow fs fuel path = inl ELOOP.
Proof.
  intros Hl. induction fuel as [|fuel IH]; simpl; rewrite Hl; done.
Qed.

(** X20. A link whose target does not exist is described like a vanished path
    (five [None]s); a link that points to itself makes [os.stat] fail with
    an error other than [FileNotFoundError], which the extractor swallows:
    it returns [None], and the description has five ['-']. *)
Theorem broken_link_records os path target :
  os_lstat os path = inr (Link target) →
  (os_lstat os target = inl ENOENT →
   get_data_information os path = Ok (Some info_none)) ∧
  (target = path →
   get_data_information os path = Ok None ∧
   description None = {| group := Some "-"; mode := Some "-"; type := Some "-";
                         user := Some "-"; prot := Some "-" |}).
Proof.
  intros Hl%os_lstat_link. split.
  - intros Ht. unfold get_data_information, os_stat, MAXSYMLINKS.
    assert (Hnone : nodes os !! target = None).
    { unfold os_lstat in Ht. by destruct (nodes os !! target) as [[| |]|]. }
    change (stat_follow (nodes os) 40 path)
      with (match nodes os !! path with
            | None => inl ENOENT
            | Some NoAccess => inl EACCES
            | Some (Obj st) => inr st
            | Some (Link t) => stat_follow (nodes os) 39 t
            end).
    rewrite Hl. simpl. by rewrite Hnone.
  - intros ->. split; [| done].
    unfold get_data_information, os_stat. by rewrite stat_follow_self_loop.
Qed.

Lemma broken_link_records_witness :
  (os_lstat broken_links_os "/tmp/demo/gone" = inl ENOENT →
   get_data_information broken_links_os "/tmp/demo/old" = Ok (Some info_none)) ∧
  ("/tmp/demo/gone" = "/tmp/demo/old" →
   get_data_information broken_links_os "/tmp/demo/old" = Ok None ∧
   description None = {| group := Some "-"; mode := Some "-"; type := Some "-";
                         user := Some "-"; prot := Some "-" |}).
Proof.
  apply (broken_link_records broken_links_os "/tmp/demo/old" "/tmp/demo/gone").
  vm_compute. reflexivity.
Defined.

(** The link that points to itself gets no record. *)
Example self_link_record :
  get_data_information broken_links_os "/tmp/demo/self" = Ok None.
Proof. by vm_compute. Qed.

(** ** The shape of the two permission strings *)

(** X21. For every raw mode the symbolic string has ten characters; the octal
    field is made of octal digits and has three of them, except when the
    twelve permission bits are below [0o10], when it has two. *)
Theorem permission_strings_shape st_mode :
  String.length (get_filemode st_mode) = 10%nat ∧
  string_forall is_octal_digit (mode_field st_mode) = true ∧
  String.length (mode_field st_mode)
  = if S_IMODE st_mode <? 8 then 2%nat else 3%nat.
Proof.
  split; [apply get_filemode_length | apply mode_field_shape].
Qed.
